(** * EQEmu password hasher: the hashing engine of [main.go]

    A shallow embedding of the engine functions of [main.go] (the escrypt
    base64 codec, the legacy digest modes, the Argon2id and scrypt encoders,
    the scrypt verifier and the mode dispatcher) and of what the window does
    with them (the reading of the selected option and the functions of the
    Generate and Verify buttons), and the properties of the specification and
    of the code stated over it.

    Conventions.
    - A Go [string] and a Go [[]byte] are both a [list byte]; the conversions
      [[]byte(s)] and [string(b)] copy the bytes and are the identity here.
    - Go [int], [uint] and [uint32] values are in [Z].  The engine only masks,
      shifts right, ors bytes into disjoint positions and counts, so no
      operation of the modelled functions can leave its machine range; the one
      counter that could ([i] in [encode64Uint32]) is wrapped explicitly.
    - A run-time panic (a slice expression out of range) is the [Panics]
      outcome of the function that can raise it.
    - [crypto/rand] is a tape of bytes that [rand_Read] consumes.
    - The digests and key-derivation functions of the Go libraries
      ([crypto/md5], [crypto/sha1], [crypto/sha512], [x/crypto/argon2],
      [x/crypto/scrypt]) are the fields of the class [Primitives]; what the
      proofs need of their documentation is stated as explicit contracts.
    - The widgets are the record [window] of the texts they show; a button
      function maps the texts of the entries and a [window] to the [window]
      after it.  [strings.TrimSpace] and the texts of the library errors are
      the fields of the class [Host]. *)

From Stdlib Require Import ZArith Lia List Bool.
From Stdlib Require Strings.String Strings.Byte DecimalString DecimalPos.
From stdpp Require Import gmap.
Import ListNotations.
Import String.StringSyntax.
Delimit Scope string_scope with string.

Local Open Scope Z_scope.

(* ===================================================================== *)
(** ** Go values *)
(* ===================================================================== *)

Abbreviation byte := Corelib.Init.Byte.byte.

(** A string literal of the source, as its bytes. *)
Definition str (s : String.string) : list byte := String.list_byte_of_string s.
Arguments str s%_string.

(** The characters ['$'] and ['=']. *)
Definition dollar : byte := Byte.x24.
Definition equals_sign : byte := Byte.x3d.

(** [uint(b)] for a byte [b]. *)
Definition uint (b : byte) : Z := Z.of_N (Byte.to_N b).

(** [len(s)]. *)
Definition len (s : list byte) : Z := Z.of_nat (length s).

(** [s[i]] where the index is known to be in range; the default is never
    returned by the functions below (see [itoa64_at_defined] and
    [encode64Bytes_loop_spec]). *)
Definition at_index (s : list byte) (i : Z) : byte :=
  nth (Z.to_nat i) s Byte.x00.

(** Go [int] is 64 bits wide on every platform the program is built for. *)
Definition wrap_int (x : Z) : Z := (x + 2 ^ 63) mod 2 ^ 64 - 2 ^ 63.

(** [a == b] on strings. *)
Fixpoint bytes_eqb (a b : list byte) : bool :=
  match a, b with
  | [], [] => true
  | x :: a', y :: b' => Byte.eqb x y && bytes_eqb a' b'
  | _, _ => false
  end.

(** The slice expression [s[lo:hi]]: [None] is the run-time panic
    "slice bounds out of range", raised unless [0 <= lo <= hi <= len(s)]. *)
Definition slice (s : list byte) (lo hi : Z) : option (list byte) :=
  if (0 <=? lo) && (lo <=? hi) && (hi <=? len s)
  then Some (firstn (Z.to_nat (hi - lo)) (skipn (Z.to_nat lo) s))
  else None.

(** What a function that can panic does. *)
Inductive outcome (A : Type) : Type :=
| Returns (a : A)
| Panics.
Arguments Returns {A} a.
Arguments Panics {A}.

(** The errors of the engine: the one of [rand.Read], the one of
    [scrypt.Key], and [fmt.Errorf("unsupported encryption mode: %d", mode)]. *)
Inductive error : Type :=
| RandError
| ScryptError
| UnsupportedMode (mode : Z).

(** A Go result pair [(value, err)]. *)
Inductive result (A : Type) : Type :=
| Ok (a : A)
| Err (e : error).
Arguments Ok {A} a.
Arguments Err {A} e.

(* ===================================================================== *)
(** ** The Go libraries the engine calls *)
(* ===================================================================== *)

(** [crypto/rand]: the bytes the system source will deliver, in order. *)
Definition entropy : Type := list byte.

(** A computation that may draw random bytes and may return an error. *)
Definition M (A : Type) : Type := entropy -> result A * entropy.

Definition ret {A : Type} (a : A) : M A := fun rng => (Ok a, rng).

Definition fail {A : Type} (e : error) : M A := fun rng => (Err e, rng).

Definition bind {A B : Type} (m : M A) (k : A -> M B) : M B :=
  fun rng =>
    match m rng with
    | (Ok a, rng') => k a rng'
    | (Err e, rng') => (Err e, rng')
    end.

Notation "x <- m ;; k" := (bind m (fun x => k))
  (at level 100, m at next level, right associativity).

(** [b := make([]byte, n); _, err := rand.Read(b)]: fills all of [b], or,
    when the source cannot deliver [n] bytes, returns an error after reading
    what was left of it (the [io.ReadFull] on the system reader that
    [rand.Read] is).  From Go 1.24 on the runtime aborts the process there
    instead of returning, and the [err != nil] branches of the callers are
    never taken; the properties below use of that case only that no hash is
    returned. *)
Definition rand_Read (n : nat) : M (list byte) :=
  fun rng =>
    if (n <=? length rng)%nat then (Ok (firstn n rng), skipn n rng)
    else (Err RandError, []).

(** [fmt.Sprintf("%x", digest)]: two lowercase hexadecimal digits a byte. *)
Definition hexdigits : list byte := str "0123456789abcdef".

Definition Sprintf_x (digest : list byte) : list byte :=
  flat_map (fun b => [at_index hexdigits (Z.shiftr (uint b) 4);
                      at_index hexdigits (Z.land (uint b) 15)]) digest.

(** [%d] of [fmt.Sprintf]. *)
Definition Sprintf_d (n : Z) : list byte :=
  String.list_byte_of_string (DecimalString.NilZero.string_of_int (Z.to_int n)).

(** [encoding/base64]: the alphabet of [StdEncoding] and
    [RawStdEncoding.EncodeToString] (no padding character). *)
Definition encodeStd : list byte :=
  str "ABCDEFGHIJKLMNOPQRSTUVWXYZabcdefghijklmnopqrstuvwxyz0123456789+/".

Definition encodeStd_at (v : Z) : byte := at_index encodeStd (Z.land v 63).

Fixpoint RawStdEncoding_EncodeToString (src : list byte) : list byte :=
  match src with
  | [] => []
  | [b0] =>
      let val := Z.shiftl (uint b0) 16 in
      [encodeStd_at (Z.shiftr val 18); encodeStd_at (Z.shiftr val 12)]
  | [b0; b1] =>
      let val := Z.lor (Z.shiftl (uint b0) 16) (Z.shiftl (uint b1) 8) in
      [encodeStd_at (Z.shiftr val 18); encodeStd_at (Z.shiftr val 12);
       encodeStd_at (Z.shiftr val 6)]
  | b0 :: b1 :: b2 :: rest =>
      let val := Z.lor (Z.lor (Z.shiftl (uint b0) 16) (Z.shiftl (uint b1) 8)) (uint b2) in
      encodeStd_at (Z.shiftr val 18) :: encodeStd_at (Z.shiftr val 12)
        :: encodeStd_at (Z.shiftr val 6) :: encodeStd_at val
        :: RawStdEncoding_EncodeToString rest
  end.

(** [strings.LastIndex(s, sep)] for a separator of one byte (the source only
    passes ["$"]): the index of its last occurrence, or [-1]. *)
Fixpoint LastIndex_scan (s : list byte) (sep : byte) (i found : Z) : Z :=
  match s with
  | [] => found
  | b :: s' => LastIndex_scan s' sep (i + 1) (if Byte.eqb b sep then i else found)
  end.

Definition strings_LastIndex (s : list byte) (sep : byte) : Z :=
  LastIndex_scan s sep 0 (-1).

(** The digests and key-derivation functions.  [md5_Sum] is [md5.Sum],
    [argon2_IDKey password salt time memory threads keyLen] is
    [argon2.IDKey], and [scrypt_Key password salt N r p keyLen] is
    [scrypt.Key], [None] being its error. *)
Class Primitives : Type := {
  md5_Sum : list byte -> list byte;
  sha1_Sum : list byte -> list byte;
  sha512_Sum512 : list byte -> list byte;
  argon2_IDKey : list byte -> list byte -> Z -> Z -> Z -> Z -> list byte;
  scrypt_Key : list byte -> list byte -> Z -> Z -> Z -> Z -> option (list byte)
}.

(** The documentation of [scrypt.Key]: it returns "a byte slice of length
    keyLen", and an error only when "the parameters do not satisfy the
    limits" ([N] a power of two greater than 1, [r * p < 2^30]).  The
    parameters of the engine, [N = 16384], [r = 8], [p = 1], satisfy them, so
    with these and [keyLen = 32] the call returns 32 bytes. *)
Definition scrypt_Key_interactive `{Primitives} : Prop :=
  forall password salt,
    exists dk, scrypt_Key password salt 16384 8 1 32 = Some dk /\ length dk = 32%nat.

(* ===================================================================== *)
(** ** The escrypt base64 codec *)
(* ===================================================================== *)

(** [const itoa64 = "./0123456789ABC...XYZabc...xyz"] *)
Definition itoa64 : list byte :=
  str "./0123456789ABCDEFGHIJKLMNOPQRSTUVWXYZabcdefghijklmnopqrstuvwxyz".

(** [itoa64[i]] *)
Definition itoa64_at (i : Z) : byte := at_index itoa64 i.

(** The loop of [encode64Uint32]:
    [for i := 0; i < bits; i += 6 { result = append(result, itoa64[value&0x3f]); value >>= 6 }]
    with the loop state [(i, value, result)] and a bound on the number of
    iterations. *)
Fixpoint encode64Uint32_loop (fuel : nat) (bits i value : Z) (result : list byte)
  : list byte :=
  match fuel with
  | O => result
  | S fuel' =>
      if i <? bits then
        encode64Uint32_loop fuel' bits (wrap_int (i + 6)) (Z.shiftr value 6)
          (result ++ [itoa64_at (Z.land value 63)])
      else result
  end.

(** [func encode64Uint32(value uint32, bits int) string] *)
Definition encode64Uint32 (value : Z) (bits : Z) : list byte :=
  encode64Uint32_loop (Z.to_nat bits) bits 0 value [].

(** The first loop of [encode64Bytes]:
    [for i+3 <= len(src) { v := ...; four appends; i += 3 }],
    returning the loop state [(i, result)] at exit. *)
Fixpoint encode64Bytes_loop (fuel : nat) (src : list byte) (i : Z) (result : list byte)
  : Z * list byte :=
  match fuel with
  | O => (i, result)
  | S fuel' =>
      if i + 3 <=? len src then
        let v := Z.lor (Z.lor (uint (at_index src i))
                              (Z.shiftl (uint (at_index src (i + 1))) 8))
                       (Z.shiftl (uint (at_index src (i + 2))) 16) in
        let result := result ++ [itoa64_at (Z.land v 63)] in
        let result := result ++ [itoa64_at (Z.land (Z.shiftr v 6) 63)] in
        let result := result ++ [itoa64_at (Z.land (Z.shiftr v 12) 63)] in
        let result := result ++ [itoa64_at (Z.land (Z.shiftr v 18) 63)] in
        encode64Bytes_loop fuel' src (i + 3) result
      else (i, result)
  end.

(** [func encode64Bytes(src []byte) string] *)
Definition encode64Bytes (src : list byte) : list byte :=
  let '(i, result) := encode64Bytes_loop (length src) src 0 [] in
  let remaining := len src - i in
  if remaining =? 1 then
    let v := uint (at_index src i) in
    let result := result ++ [itoa64_at (Z.land v 63)] in
    let result := result ++ [itoa64_at (Z.land (Z.shiftr v 6) 63)] in
    result
  else if remaining =? 2 then
    let v := Z.lor (uint (at_index src i)) (Z.shiftl (uint (at_index src (i + 1))) 8) in
    let result := result ++ [itoa64_at (Z.land v 63)] in
    let result := result ++ [itoa64_at (Z.land (Z.shiftr v 6) 63)] in
    let result := result ++ [itoa64_at (Z.land (Z.shiftr v 12) 63)] in
    result
  else result.

(* ===================================================================== *)
(** ** The hash functions *)
(* ===================================================================== *)

(** [func hashMD5(s string) string] *)
Definition hashMD5 `{Primitives} (s : list byte) : list byte :=
  Sprintf_x (md5_Sum s).

(** [func hashSHA1(s string) string] *)
Definition hashSHA1 `{Primitives} (s : list byte) : list byte :=
  Sprintf_x (sha1_Sum s).

(** [func hashSHA512(s string) string] *)
Definition hashSHA512 `{Primitives} (s : list byte) : list byte :=
  Sprintf_x (sha512_Sum512 s).

(** [func hashArgon2(password string) (string, error)] *)
Definition hashArgon2 `{Primitives} (password : list byte) : M (list byte) :=
  salt <- rand_Read 16 ;;
  let timeCost := 2 in
  let memoryCost := 65536 in
  let threads := 1 in
  let keyLen := 32 in
  let hash := argon2_IDKey password salt timeCost memoryCost threads keyLen in
  let b64Salt := RawStdEncoding_EncodeToString salt in
  let b64Hash := RawStdEncoding_EncodeToString hash in
  ret (str "$argon2id$v=19$m=" ++ Sprintf_d memoryCost
         ++ str ",t=" ++ Sprintf_d timeCost
         ++ str ",p=" ++ Sprintf_d threads
         ++ str "$" ++ b64Salt ++ str "$" ++ b64Hash).

(** [func hashSCrypt(password string) (string, error)] *)
Definition hashSCrypt `{Primitives} (password : list byte) : M (list byte) :=
  rawSalt <- rand_Read 32 ;;
  let N := 16384 in
  let r := 8 in
  let p := 1 in
  let keyLen := 32 in
  let encodedSalt := encode64Bytes rawSalt in
  match scrypt_Key password encodedSalt N r p keyLen with
  | None => fail ScryptError
  | Some dk =>
      let log2N := 14 in
      let mcf := str "$7$"
                   ++ encode64Uint32 log2N 6
                   ++ encode64Uint32 r 30
                   ++ encode64Uint32 p 30
                   ++ encodedSalt ++ str "$"
                   ++ encode64Bytes dk in
      ret mcf
  end.

(** [func verifySCrypt(storedHash, password string) bool] *)
Definition verifySCrypt `{Primitives} (storedHash password : list byte) : outcome bool :=
  if len storedHash <? 14 then Returns false else
  match slice storedHash 0 3 with
  | None => Panics
  | Some prefix =>
      if negb (bytes_eqb prefix (str "$7$")) then Returns false else
      let lastDollar := strings_LastIndex storedHash dollar in
      if lastDollar <=? 3 then Returns false else
      match slice storedHash 14 lastDollar with
      | None => Panics
      | Some encodedSalt =>
          match slice storedHash (lastDollar + 1) (len storedHash) with
          | None => Panics
          | Some expectedDK =>
              match scrypt_Key password encodedSalt 16384 8 1 32 with
              | None => Returns false
              | Some dk => Returns (bytes_eqb (encode64Bytes dk) expectedDK)
              end
          end
      end
  end.

(** [func eqcryptHash(username, password string, mode int) (string, error)] *)
Definition eqcryptHash `{Primitives} (username password : list byte) (mode : Z)
  : M (list byte) :=
  match mode with
  | 1 => ret (hashMD5 password)
  | 2 => ret (hashMD5 (password ++ str ":" ++ username))
  | 3 => ret (hashMD5 (username ++ str ":" ++ password))
  | 4 => ret (hashMD5 (hashMD5 username ++ hashMD5 password))
  | 5 => ret (hashSHA1 password)
  | 6 => ret (hashSHA1 (password ++ str ":" ++ username))
  | 7 => ret (hashSHA1 (username ++ str ":" ++ password))
  | 8 => ret (hashSHA1 (hashSHA1 username ++ hashSHA1 password))
  | 9 => ret (hashSHA512 password)
  | 10 => ret (hashSHA512 (password ++ str ":" ++ username))
  | 11 => ret (hashSHA512 (username ++ str ":" ++ password))
  | 12 => ret (hashSHA512 (hashSHA512 username ++ hashSHA512 password))
  | 13 => hashArgon2 password
  | 14 => hashSCrypt password
  | _ => fail (UnsupportedMode mode)
  end.

(** [var modeNeedsUsername = map[int]bool{2: true, 3: true, 4: true, ...}] *)
Definition modeNeedsUsername : gmap Z bool :=
  list_to_map [(2, true); (3, true); (4, true);
               (6, true); (7, true); (8, true);
               (10, true); (11, true); (12, true)].

(** The index expression [modeNeedsUsername[mode]]: the zero value [false]
    for a key that is not in the map. *)
Definition modeNeedsUsername_at (mode : Z) : bool :=
  default false (modeNeedsUsername !! mode).

(* ===================================================================== *)
(** ** Definitions used to state and prove the properties *)
(* ===================================================================== *)

(** The value the loop body of [encode64Bytes] packs from three bytes, and
    from the two bytes left at the end. *)
Definition pack3 (b0 b1 b2 : byte) : Z :=
  Z.lor (Z.lor (uint b0) (Z.shiftl (uint b1) 8)) (Z.shiftl (uint b2) 16).

Definition pack2 (b0 b1 : byte) : Z :=
  Z.lor (uint b0) (Z.shiftl (uint b1) 8).

(** The index of the [k]-th 6-bit group of a packed value, least significant
    first, and its symbol. *)
Definition digit (v k : Z) : Z := Z.land (Z.shiftr v (6 * k)) 63.

Definition symbol (v : Z) (k : Z) : byte := itoa64_at (digit v k).

(** The first [n] symbols of a value, least significant first. *)
Definition symbols_of (value : Z) (n : nat) : list byte :=
  map (fun k => symbol value (Z.of_nat k)) (seq 0 n).

(** What the loop appends for the complete groups of three bytes. *)
Fixpoint full_groups (src : list byte) : list byte :=
  match src with
  | b0 :: b1 :: b2 :: rest =>
      let v := pack3 b0 b1 b2 in
      symbol v 0 :: symbol v 1 :: symbol v 2 :: symbol v 3 :: full_groups rest
  | _ => []
  end.

(** The bytes left when the loop exits. *)
Fixpoint trailing (src : list byte) : list byte :=
  match src with
  | _ :: _ :: _ :: rest => trailing rest
  | t => t
  end.

(** What the two branches after the loop append. *)
Definition trailing_symbols (t : list byte) : list byte :=
  match t with
  | [b0] => [symbol (uint b0) 0; symbol (uint b0) 1]
  | [b0; b1] =>
      let v := pack2 b0 b1 in [symbol v 0; symbol v 1; symbol v 2]
  | _ => []
  end.

(** The number of symbols [encode64Bytes] emits for [n] bytes. *)
Definition encoded_length (n : nat) : nat :=
  (4 * (n / 3) + match n mod 3 with 0 => 0 | 1 => 2 | _ => 3 end)%nat.

(** The fixed head of every hash [hashSCrypt] builds: ["$7$"], then the
    symbols of [log2N], [r] and [p]. *)
Definition scrypt_params : list byte :=
  encode64Uint32 14 6 ++ encode64Uint32 8 30 ++ encode64Uint32 1 30.

(** The modes of the specification's table, and the modes that need a
    username. *)
Definition username_modes : list Z := [2; 3; 4; 6; 7; 8; 10; 11; 12].

(** The table of the legacy modes as the specification has it: a digest (MD5
    for modes 1 to 4, SHA1 for 5 to 8, SHA512 for 9 to 12) and one of four
    patterns, the result in hexadecimal. *)
Definition table_digest `{Primitives} (mode : Z) : list byte -> list byte :=
  if mode <=? 4 then md5_Sum else if mode <=? 8 then sha1_Sum else sha512_Sum512.

Definition legacy_table `{Primitives} (mode : Z) (username password : list byte)
  : list byte :=
  let hex_digest s := Sprintf_x (table_digest mode s) in
  match (mode - 1) mod 4 with
  | 0 => hex_digest password
  | 1 => hex_digest (password ++ str ":" ++ username)
  | 2 => hex_digest (username ++ str ":" ++ password)
  | _ => hex_digest (hex_digest username ++ hex_digest password)
  end.

(** A character the escrypt alphabet does not have. *)
Definition foreign (c : byte) : Prop := ~ In c itoa64.

(** Modelled from the spec: the reading of a symbol back through the
    64-symbol alphabet, which the [decode] operation of the escrypt codec
    needs; [main.go] has no decoder.  [atoi64 c] is the index of [c] in the
    alphabet, and nothing for a character outside it. *)
Fixpoint index_from (c : byte) (l : list byte) (i : Z) : option Z :=
  match l with
  | [] => None
  | x :: l' => if Byte.eqb x c then Some i else index_from c l' (i + 1)
  end.

Definition atoi64 (c : byte) : option Z := index_from c itoa64 0.

(** The byte of the low 8 bits of a value. *)
Definition byte_of_Z (v : Z) : byte :=
  default Byte.x00 (Byte.of_N (Z.to_N (v mod 256))).

(** Modelled from the spec: the [decode] operation of the escrypt codec
    (section 4.1 of the specification), which is missing from [main.go],
    where the verifier compares encoded text instead.  It is the inverse of
    [encode_bytes]: four symbols give back the three bytes of a group, least
    significant 6 bits first; three symbols at the end give back two bytes
    and two symbols one byte; a string with a character outside the
    64-symbol alphabet is rejected. *)
Fixpoint decode64 (s : list byte) : option (list byte) :=
  match s with
  | [] => Some []
  | [_] => None
  | [c0; c1] =>
      match atoi64 c0, atoi64 c1 with
      | Some d0, Some d1 => Some [byte_of_Z (d0 + 64 * d1)]
      | _, _ => None
      end
  | [c0; c1; c2] =>
      match atoi64 c0, atoi64 c1, atoi64 c2 with
      | Some d0, Some d1, Some d2 =>
          let v := d0 + 64 * d1 + 4096 * d2 in
          Some [byte_of_Z v; byte_of_Z (v / 256)]
      | _, _, _ => None
      end
  | c0 :: c1 :: c2 :: c3 :: rest =>
      match atoi64 c0, atoi64 c1, atoi64 c2, atoi64 c3, decode64 rest with
      | Some d0, Some d1, Some d2, Some d3, Some bytes =>
          let v := d0 + 64 * d1 + 4096 * d2 + 262144 * d3 in
          Some (byte_of_Z v :: byte_of_Z (v / 256) :: byte_of_Z (v / 65536) :: bytes)
      | _, _, _, _, _ => None
      end
  end.

(** Stand-ins for the library functions, to run the engine on concrete
    inputs: every digest is the first bytes of its zero-padded input, and the
    derived key the first [keyLen] bytes of [password ++ salt], zero-padded. *)
Definition test_digest (n : nat) (s : list byte) : list byte :=
  firstn n (s ++ repeat Byte.x00 n).

Definition test_primitives : Primitives := {|
  md5_Sum := test_digest 16;
  sha1_Sum := test_digest 20;
  sha512_Sum512 := test_digest 64;
  argon2_IDKey password salt _ _ _ keyLen :=
    test_digest (Z.to_nat keyLen) (password ++ salt);
  scrypt_Key password salt _ _ _ keyLen :=
    Some (test_digest (Z.to_nat keyLen) (password ++ salt))
|}.

(* ===================================================================== *)
(** ** The mode selection and the two buttons *)
(* ===================================================================== *)

(** [var modeOptions = []string{"1 - MD5", ...}] *)
Definition modeOptions : list (list byte) :=
  [str "1 - MD5";
   str "2 - MD5 (password:username)";
   str "3 - MD5 (username:password)";
   str "4 - MD5 Triple";
   str "5 - SHA1";
   str "6 - SHA1 (password:username) [default without ENABLE_SECURITY]";
   str "7 - SHA1 (username:password)";
   str "8 - SHA1 Triple";
   str "9 - SHA512";
   str "10 - SHA512 (password:username)";
   str "11 - SHA512 (username:password)";
   str "12 - SHA512 Triple";
   str "13 - Argon2 [default with ENABLE_SECURITY]";
   str "14 - SCrypt"].

(** The characters [' '], ['+'], ['-'] and [':']. *)
Definition space : byte := Byte.x20.
Definition plus_sign : byte := Byte.x2b.
Definition minus_sign : byte := Byte.x2d.
Definition colon : byte := Byte.x3a.

(** The bounds of a Go [int]. *)
Definition min_int : Z := - 2 ^ 63.
Definition max_int : Z := 2 ^ 63 - 1.

(** [strings.SplitN(s, sep, 2)] for a separator of one byte: the text before
    the first separator and the text after it, or [s] alone. *)
Fixpoint strings_SplitN2 (s : list byte) (sep : byte) : list (list byte) :=
  match s with
  | [] => [[]]
  | c :: s' =>
      if Byte.eqb c sep then [[]; s']
      else match strings_SplitN2 s' sep with
           | first :: others => (c :: first) :: others
           | [] => [[c]]
           end
  end.

(** [strconv.Atoi]: an optional sign and decimal digits, at least one, and a
    value that fits an [int]; [None] is its error. *)
Definition is_digit (c : byte) : bool := (48 <=? uint c) && (uint c <=? 57).

Fixpoint parse_digits (s : list byte) (acc : Z) : option Z :=
  match s with
  | [] => Some acc
  | c :: s' =>
      if is_digit c then parse_digits s' (acc * 10 + (uint c - 48)) else None
  end.

Definition strconv_Atoi (s : list byte) : option Z :=
  match s with
  | [] => None
  | c :: rest =>
      let neg := Byte.eqb c minus_sign in
      let digits := if Byte.eqb c minus_sign || Byte.eqb c plus_sign then rest else s in
      match digits with
      | [] => None
      | _ =>
          match parse_digits digits 0 with
          | None => None
          | Some n =>
              let v := if neg then - n else n in
              if (min_int <=? v) && (v <=? max_int) then Some v else None
          end
      end
  end.

(** [strings.HasPrefix(s, prefix)] *)
Fixpoint strings_HasPrefix (s prefix : list byte) : bool :=
  match prefix, s with
  | [], _ => true
  | p :: prefix', c :: s' => Byte.eqb c p && strings_HasPrefix s' prefix'
  | _ :: _, [] => false
  end.

(** [func parseModeFromSelection(sel string) int] *)
Definition parseModeFromSelection (sel : list byte) : Z :=
  let parts := strings_SplitN2 sel space in
  match parts with
  | [] => 0
  | part0 :: _ =>
      match strconv_Atoi part0 with
      | None => 0
      | Some mode => mode
      end
  end.

(** What the window shows: the texts of the status label, of the output
    entry of the Generate tab, of its note under the username entry, and of
    the result label of the Verify tab. *)
Record window : Type := {
  statusLabel : list byte;
  outputEntry : list byte;
  usernameNote : list byte;
  resultLabel : list byte
}.

Definition statusLabel_SetText (text : list byte) (w : window) : window :=
  {| statusLabel := text; outputEntry := outputEntry w;
     usernameNote := usernameNote w; resultLabel := resultLabel w |}.

Definition outputEntry_SetText (text : list byte) (w : window) : window :=
  {| statusLabel := statusLabel w; outputEntry := text;
     usernameNote := usernameNote w; resultLabel := resultLabel w |}.

Definition usernameNote_SetText (text : list byte) (w : window) : window :=
  {| statusLabel := statusLabel w; outputEntry := outputEntry w;
     usernameNote := text; resultLabel := resultLabel w |}.

Definition resultLabel_SetText (text : list byte) (w : window) : window :=
  {| statusLabel := statusLabel w; outputEntry := outputEntry w;
     usernameNote := usernameNote w; resultLabel := text |}.

(** What the buttons take from the host: [strings.TrimSpace], and the texts
    of the errors of [rand.Read] and [scrypt.Key]. *)
Class Host : Type := {
  strings_TrimSpace : list byte -> list byte;
  rand_Error : list byte;
  scrypt_Error : list byte
}.

(** [err.Error()], which [%v] prints. *)
Definition Error_text `{Host} (e : error) : list byte :=
  match e with
  | RandError => rand_Error
  | ScryptError => scrypt_Error
  | UnsupportedMode mode => str "unsupported encryption mode: " ++ Sprintf_d mode
  end.

(** [modeSelect.OnChanged = func(sel string) { ... }] *)
Definition modeSelect_OnChanged (sel : list byte) (w : window) : window :=
  let mode := parseModeFromSelection sel in
  if modeNeedsUsername_at mode
  then usernameNote_SetText (str "Username is required for this mode") w
  else usernameNote_SetText (str "Username is not used for this mode") w.

(** The function of the "Generate Hash" button, on the selected option and
    the texts of the username and password entries. *)
Definition hashButton_tapped `{Primitives} `{Host}
  (selected usernameText passwordText : list byte) (w : window) (rng : entropy)
  : window * entropy :=
  let mode := parseModeFromSelection selected in
  if mode =? 0 then
    (statusLabel_SetText (str "Please select an encryption mode") w, rng)
  else
    let password := passwordText in
    if bytes_eqb password [] then
      (statusLabel_SetText (str "Password is required") w, rng)
    else
      let username := usernameText in
      if modeNeedsUsername_at mode && bytes_eqb username [] then
        (statusLabel_SetText (str "Username is required for this mode") w, rng)
      else
        match eqcryptHash username password mode rng with
        | (Err err, rng') =>
            (outputEntry_SetText []
               (statusLabel_SetText (str "Error: " ++ Error_text err) w), rng')
        | (Ok hash, rng') =>
            (statusLabel_SetText
               (str "Mode " ++ Sprintf_d mode ++ str " hash generated ("
                  ++ Sprintf_d (len hash) ++ str " chars)")
               (outputEntry_SetText hash w), rng')
        end.

(** The function of the "Verify" button, on the texts of the hash and
    password entries. *)
Definition verifyButton_tapped `{Primitives} `{Host}
  (hashText passwordText : list byte) (w : window) : outcome window :=
  let hash := strings_TrimSpace hashText in
  let password := passwordText in
  if bytes_eqb hash [] || bytes_eqb password [] then
    Returns (statusLabel_SetText (str "Both hash and password are required") w)
  else
    let w := statusLabel_SetText
               (str "Hash length: " ++ Sprintf_d (len hash) ++ str " chars") w in
    if strings_HasPrefix hash (str "$7$") then
      match verifySCrypt hash password with
      | Panics => Panics
      | Returns true =>
          Returns (resultLabel_SetText
                     (str "PASS - Password matches this SCrypt hash") w)
      | Returns false =>
          Returns (resultLabel_SetText
                     (str "FAIL - Password does NOT match this SCrypt hash") w)
      end
    else if strings_HasPrefix hash (str "$argon2") then
      Returns (resultLabel_SetText
                 (str "Argon2 verification not yet supported in verify tab") w)
    else
      Returns (resultLabel_SetText
                 (str "Hash is " ++ Sprintf_d (len hash)
                    ++ str " chars (MD5=32, SHA1=40, SHA512=128) - use Generate tab to compare")
                 w).

(** Stand-ins for the host: [strings.TrimSpace] on text that has only ASCII
    white space to trim, and two error texts. *)
Definition is_ascii_space (c : byte) : bool :=
  Byte.eqb c Byte.x09 || Byte.eqb c Byte.x0a || Byte.eqb c Byte.x0b
  || Byte.eqb c Byte.x0c || Byte.eqb c Byte.x0d || Byte.eqb c Byte.x20.

Fixpoint trim_left (s : list byte) : list byte :=
  match s with
  | c :: s' => if is_ascii_space c then trim_left s' else s
  | [] => []
  end.

Definition test_host : Host := {|
  strings_TrimSpace s := rev (trim_left (rev (trim_left s)));
  rand_Error := str "rand: no entropy";
  scrypt_Error := str "scrypt: parameters are too large"
|}.

(** The sizes of the digests: [md5.Sum] returns a [[16]byte], [sha1.Sum] a
    [[20]byte] and [sha512.Sum512] a [[64]byte]. *)
Definition digest_sizes `{Primitives} : Prop :=
  (forall s, length (md5_Sum s) = 16%nat)
  /\ (forall s, length (sha1_Sum s) = 20%nat)
  /\ (forall s, length (sha512_Sum512 s) = 64%nat).

(** A printable ASCII character other than the space, and what
    [strings.TrimSpace] does to a text made of such characters: it has no
    white space to trim. *)
Definition graphic (c : byte) : bool := (33 <=? uint c) && (uint c <=? 126).

Definition TrimSpace_keeps_graphic `{Host} : Prop :=
  forall s : list byte, forallb graphic s = true -> strings_TrimSpace s = s.

(** The value of a decimal number read digit by digit, most significant
    first, after [acc]. *)
Fixpoint uint_value (d : Decimal.uint) (acc : Z) : Z :=
  match d with
  | Decimal.Nil => acc
  | Decimal.D0 d' => uint_value d' (acc * 10 + 0)
  | Decimal.D1 d' => uint_value d' (acc * 10 + 1)
  | Decimal.D2 d' => uint_value d' (acc * 10 + 2)
  | Decimal.D3 d' => uint_value d' (acc * 10 + 3)
  | Decimal.D4 d' => uint_value d' (acc * 10 + 4)
  | Decimal.D5 d' => uint_value d' (acc * 10 + 5)
  | Decimal.D6 d' => uint_value d' (acc * 10 + 6)
  | Decimal.D7 d' => uint_value d' (acc * 10 + 7)
  | Decimal.D8 d' => uint_value d' (acc * 10 + 8)
  | Decimal.D9 d' => uint_value d' (acc * 10 + 9)
  end.

(* ===================================================================== *)
(** ** The engine on concrete inputs *)
(* ===================================================================== *)

Example encode64Uint32_log2N : encode64Uint32 14 6 = str "C".
Proof. reflexivity. Qed.

Example encode64Uint32_r : encode64Uint32 8 30 = str "6....".
Proof. reflexivity. Qed.

Example encode64Uint32_p : encode64Uint32 1 30 = str "/....".
Proof. reflexivity. Qed.

Example encode64Bytes_abcd : encode64Bytes (str "abcd") = str "V7qMY/".
Proof. vm_compute. reflexivity. Qed.

Example RawStdEncoding_foobar :
  map RawStdEncoding_EncodeToString [str ""; str "f"; str "fo"; str "foo"; str "foob"]
  = [str ""; str "Zg"; str "Zm8"; str "Zm9v"; str "Zm9vYg"].
Proof. vm_compute. reflexivity. Qed.

Example Sprintf_x_bytes : Sprintf_x [Byte.x00; Byte.x0f; Byte.xa5; Byte.xff] = str "000fa5ff".
Proof. vm_compute. reflexivity. Qed.

Example Sprintf_d_memoryCost : Sprintf_d 65536 = str "65536".
Proof. vm_compute. reflexivity. Qed.

Example strings_LastIndex_dollar :
  map (fun s => strings_LastIndex s dollar) [str "$7$ab$cd"; str "abc"; str ""]
  = [5; -1; -1].
Proof. vm_compute. reflexivity. Qed.

Example slice_in_range : slice (str "$7$abc") 0 3 = Some (str "$7$").
Proof. vm_compute. reflexivity. Qed.

Example slice_out_of_range : slice (str "$7$abc") 4 2 = None.
Proof. vm_compute. reflexivity. Qed.

Example modeNeedsUsername_at_all :
  map modeNeedsUsername_at [0; 1; 2; 3; 4; 5; 6; 7; 8; 9; 10; 11; 12; 13; 14; 15]
  = [false; false; true; true; true; false; true; true; true; false;
     true; true; true; false; false; false].
Proof. vm_compute. reflexivity. Qed.

(* ===================================================================== *)
(** ** Facts about Go values *)
(* ===================================================================== *)

Lemma uint_range (b : byte) : 0 <= uint b < 256.
Proof.
  unfold uint. pose proof (Byte.to_N_bounded b). lia.
Qed.

Lemma uint_inj (a b : byte) : uint a = uint b -> a = b.
Proof.
  unfold uint. intros E. apply N2Z.inj in E.
  pose proof (Byte.of_to_N a) as Ha. pose proof (Byte.of_to_N b) as Hb.
  rewrite E in Ha. congruence.
Qed.

Lemma len_nonneg (s : list byte) : 0 <= len s.
Proof. unfold len. lia. Qed.

Lemma len_app (s t : list byte) : len (s ++ t) = len s + len t.
Proof. unfold len. rewrite length_app. lia. Qed.

Lemma len_cons (b : byte) (s : list byte) : len (b :: s) = 1 + len s.
Proof. unfold len. simpl length. lia. Qed.

Lemma len_nil : len [] = 0.
Proof. reflexivity. Qed.

Lemma at_index_app_r (pre s : list byte) (k : Z) :
  0 <= k -> at_index (pre ++ s) (len pre + k) = at_index s k.
Proof.
  intros Hk. unfold at_index, len.
  replace (Z.to_nat (Z.of_nat (length pre) + k)) with (length pre + Z.to_nat k)%nat by lia.
  apply app_nth2_plus.
Qed.

Lemma at_index_app_0 (pre s : list byte) :
  at_index (pre ++ s) (len pre) = at_index s 0.
Proof.
  rewrite <- (at_index_app_r pre s 0) by lia. f_equal. lia.
Qed.

Lemma bytes_eqb_eq (a b : list byte) : bytes_eqb a b = true <-> a = b.
Proof.
  revert b. induction a as [|x a IH]; intros [|y b]; simpl; try (split; congruence).
  rewrite andb_true_iff, IH. split.
  - intros [E ->]. apply Byte.byte_dec_bl in E. congruence.
  - intros E. injection E as -> ->. split; [apply Byte.byte_dec_lb|]; reflexivity.
Qed.

Lemma bytes_eqb_refl (a : list byte) : bytes_eqb a a = true.
Proof. apply bytes_eqb_eq. reflexivity. Qed.

(** The 6-bit mask leaves an index of the alphabet, whatever the value. *)
Lemma land_63_range (v : Z) : 0 <= Z.land v 63 < 64.
Proof.
  change 63 with (Z.ones 6). rewrite Z.land_ones by lia.
  apply Z.mod_pos_bound. lia.
Qed.

Lemma land_63_mod (v : Z) : Z.land v 63 = v mod 64.
Proof. change 63 with (Z.ones 6). rewrite Z.land_ones by lia. reflexivity. Qed.

(* ===================================================================== *)
(** ** The alphabet *)
(* ===================================================================== *)

Lemma itoa64_length : length itoa64 = 64%nat.
Proof. reflexivity. Qed.

Lemma itoa64_NoDup : List.NoDup itoa64.
Proof.
  apply (NoDup_map_inv Byte.to_nat), NoDup_ListNoDup.
  apply (bool_decide_unpack _). vm_compute. exact I.
Qed.

(** Indexing the alphabet with a masked value is always in range: the
    default of [at_index] is not what [itoa64_at] returns. *)
Lemma itoa64_at_defined (i : Z) :
  0 <= i < 64 -> nth_error itoa64 (Z.to_nat i) = Some (itoa64_at i).
Proof.
  intros Hi. unfold itoa64_at, at_index. apply nth_error_nth'.
  rewrite itoa64_length. lia.
Qed.

Lemma itoa64_at_In (i : Z) : 0 <= i < 64 -> In (itoa64_at i) itoa64.
Proof.
  intros Hi. eapply nth_error_In. apply itoa64_at_defined, Hi.
Qed.

Lemma itoa64_at_inj (i j : Z) :
  0 <= i < 64 -> 0 <= j < 64 -> itoa64_at i = itoa64_at j -> i = j.
Proof.
  intros Hi Hj E.
  assert (Z.to_nat i = Z.to_nat j) as En; [|lia].
  eapply (proj1 (NoDup_nth_error itoa64) itoa64_NoDup).
  - rewrite itoa64_length. lia.
  - rewrite !itoa64_at_defined by assumption. congruence.
Qed.

(* ===================================================================== *)
(** ** [encode64Bytes]: the loop, group by group *)
(* ===================================================================== *)

Lemma symbol_0 (v : Z) : symbol v 0 = itoa64_at (Z.land v 63).
Proof. unfold symbol, digit. rewrite Z.mul_0_r, Z.shiftr_0_r. reflexivity. Qed.

Lemma trailing_short (src : list byte) : (length (trailing src) < 3)%nat.
Proof.
  induction src as [src IH] using (induction_ltof1 _ (@length byte)).
  destruct src as [|b0 [|b1 [|b2 rest]]]; simpl; try lia.
  apply IH. unfold ltof. simpl. lia.
Qed.

Lemma trailing_suffix (src : list byte) :
  exists front, src = front ++ trailing src.
Proof.
  induction src as [src IH] using (induction_ltof1 _ (@length byte)).
  destruct src as [|b0 [|b1 [|b2 rest]]];
    try (exists []; reflexivity).
  destruct (IH rest) as [front E]; [unfold ltof; simpl; lia|].
  exists (b0 :: b1 :: b2 :: front). simpl. congruence.
Qed.

(** The loop, started at index [len pre] of [pre ++ rest] with enough
    iterations allowed for [rest], exits through its condition: it has
    consumed the complete groups of [rest] and stopped at its trailing
    bytes. *)
Lemma encode64Bytes_loop_spec (fuel : nat) :
  forall (pre rest result : list byte),
    (length rest <= fuel)%nat ->
    encode64Bytes_loop fuel (pre ++ rest) (len pre) result
    = (len pre + len rest - len (trailing rest), result ++ full_groups rest).
Proof.
  induction fuel as [|fuel IH]; intros pre rest result Hfuel.
  - destruct rest; [|simpl in Hfuel; lia].
    simpl. rewrite app_nil_r, len_nil. f_equal. lia.
  - destruct rest as [|b0 [|b1 [|b2 rest]]].
    + cbn [encode64Bytes_loop]. rewrite len_app, len_nil.
      destruct (Z.leb_spec (len pre + 3) (len pre + 0)); [lia|].
      simpl. rewrite app_nil_r, len_nil. f_equal. lia.
    + cbn [encode64Bytes_loop]. rewrite len_app, !len_cons, len_nil.
      destruct (Z.leb_spec (len pre + 3) (len pre + (1 + 0))); [lia|].
      simpl. rewrite app_nil_r, !len_cons, len_nil. f_equal. lia.
    + cbn [encode64Bytes_loop]. rewrite len_app, !len_cons, len_nil.
      destruct (Z.leb_spec (len pre + 3) (len pre + (1 + (1 + 0)))); [lia|].
      simpl. rewrite app_nil_r, !len_cons, len_nil. f_equal. lia.
    + cbn [encode64Bytes_loop]. rewrite len_app, !len_cons.
      pose proof (len_nonneg rest).
      destruct (Z.leb_spec (len pre + 3) (len pre + (1 + (1 + (1 + len rest)))));
        [|lia].
      rewrite at_index_app_0, !at_index_app_r by lia.
      change (at_index (b0 :: b1 :: b2 :: rest) 0) with b0.
      change (at_index (b0 :: b1 :: b2 :: rest) 1) with b1.
      change (at_index (b0 :: b1 :: b2 :: rest) 2) with b2.
      cbv zeta.
      replace (pre ++ b0 :: b1 :: b2 :: rest) with ((pre ++ [b0; b1; b2]) ++ rest)
        by (rewrite <- app_assoc; reflexivity).
      replace (len pre + 3) with (len (pre ++ [b0; b1; b2]))
        by (rewrite len_app; reflexivity).
      rewrite IH by (simpl in Hfuel; lia).
      rewrite len_app. cbn [full_groups trailing].
      rewrite !symbol_0. unfold symbol, digit, pack3. cbn [Z.mul Pos.mul].
      rewrite <- !app_assoc. cbn [app].
      f_equal. change (len [b0; b1; b2]) with 3. lia.
Qed.

(** [encode64Bytes], group by group. *)
Lemma encode64Bytes_groups (src : list byte) :
  encode64Bytes src = full_groups src ++ trailing_symbols (trailing src).
Proof.
  unfold encode64Bytes.
  pose proof (encode64Bytes_loop_spec (length src) [] src [] (Nat.le_refl _)) as L.
  cbn [app] in L. rewrite len_nil in L. rewrite L. clear L.
  destruct (trailing_suffix src) as [front E].
  pose proof (trailing_short src) as Hshort.
  replace (len src - (0 + len src - len (trailing src))) with (len (trailing src)) by lia.
  assert (0 + len src - len (trailing src) = len front) as ->.
  { rewrite E at 1. rewrite len_app. lia. }
  assert (at_index src (len front) = at_index (trailing src) 0) as ->
    by (rewrite E at 1; apply at_index_app_0).
  assert (at_index src (len front + 1) = at_index (trailing src) 1) as ->
    by (rewrite E at 1; apply at_index_app_r; lia).
  clear E. destruct (trailing src) as [|b0 [|b1 [|b2 t]]]; [| | |simpl in Hshort; lia].
  - rewrite app_nil_r. reflexivity.
  - change (len [b0] =? 1) with true. change (at_index [b0] 0) with b0.
    cbv iota. rewrite <- !app_assoc. reflexivity.
  - change (len [b0; b1] =? 1) with false. change (len [b0; b1] =? 2) with true.
    change (at_index [b0; b1] 0) with b0. change (at_index [b0; b1] 1) with b1.
    cbv iota. rewrite <- !app_assoc. reflexivity.
Qed.

Lemma encode64Bytes_nil : encode64Bytes [] = [].
Proof. reflexivity. Qed.

Lemma encode64Bytes_cons3 (b0 b1 b2 : byte) (rest : list byte) :
  encode64Bytes (b0 :: b1 :: b2 :: rest)
  = let v := pack3 b0 b1 b2 in
    [symbol v 0; symbol v 1; symbol v 2; symbol v 3] ++ encode64Bytes rest.
Proof. rewrite !encode64Bytes_groups. reflexivity. Qed.

Lemma encode64Bytes_one (b0 : byte) :
  encode64Bytes [b0] = [symbol (uint b0) 0; symbol (uint b0) 1].
Proof. rewrite encode64Bytes_groups. reflexivity. Qed.

Lemma encode64Bytes_two (b0 b1 : byte) :
  encode64Bytes [b0; b1]
  = let v := pack2 b0 b1 in [symbol v 0; symbol v 1; symbol v 2].
Proof. rewrite encode64Bytes_groups. reflexivity. Qed.

(* ===================================================================== *)
(** ** Bit packing as arithmetic *)
(* ===================================================================== *)

Lemma lor_shiftl_add (a b n : Z) :
  0 <= n -> 0 <= a < 2 ^ n -> Z.lor a (Z.shiftl b n) = a + b * 2 ^ n.
Proof.
  intros Hn Ha. rewrite Z.shiftl_mul_pow2 by assumption.
  symmetry. apply Z.add_nocarry_lor.
  apply Z.bits_inj'. intros i Hi. rewrite Z.land_spec, Z.bits_0.
  destruct (Z.lt_ge_cases i n) as [Hlt|Hge].
  - rewrite Z.mul_pow2_bits_low by lia. apply andb_false_r.
  - assert (Z.testbit a i = false) as ->; [|reflexivity].
    apply Z.testbit_false; [assumption|].
    rewrite Z.div_small; [reflexivity|].
    split; [lia|]. apply Z.lt_le_trans with (2 ^ n); [lia|].
    apply Z.pow_le_mono_r; lia.
Qed.

Lemma pack2_sum (b0 b1 : byte) : pack2 b0 b1 = uint b0 + uint b1 * 256.
Proof.
  unfold pack2. pose proof (uint_range b0).
  rewrite lor_shiftl_add by lia. reflexivity.
Qed.

Lemma pack3_sum (b0 b1 b2 : byte) :
  pack3 b0 b1 b2 = uint b0 + uint b1 * 256 + uint b2 * 65536.
Proof.
  unfold pack3. pose proof (uint_range b0). pose proof (uint_range b1).
  rewrite (lor_shiftl_add (uint b0)) by lia.
  rewrite lor_shiftl_add by lia. reflexivity.
Qed.

Lemma digit_range (v k : Z) : 0 <= digit v k < 64.
Proof. apply land_63_range. Qed.

Lemma digit_div (v k : Z) : 0 <= k -> digit v k = (v / 2 ^ (6 * k)) mod 64.
Proof.
  intros Hk. unfold digit. rewrite land_63_mod, Z.shiftr_div_pow2 by lia.
  reflexivity.
Qed.

Lemma digit_0 (v : Z) : digit v 0 = v mod 64.
Proof. rewrite digit_div by lia. change (2 ^ (6 * 0)) with 1. rewrite Z.div_1_r. reflexivity. Qed.

Lemma digit_1 (v : Z) : digit v 1 = (v / 64) mod 64.
Proof. rewrite digit_div by lia. reflexivity. Qed.

Lemma digit_2 (v : Z) : digit v 2 = (v / 4096) mod 64.
Proof. rewrite digit_div by lia. reflexivity. Qed.

Lemma digit_3 (v : Z) : digit v 3 = (v / 262144) mod 64.
Proof. rewrite digit_div by lia. reflexivity. Qed.

Lemma symbol_In (v k : Z) : In (symbol v k) itoa64.
Proof. apply itoa64_at_In, land_63_range. Qed.

Lemma symbol_inj (v w k : Z) : symbol v k = symbol w k -> digit v k = digit w k.
Proof. apply itoa64_at_inj; apply digit_range. Qed.

(** Four symbols determine the three bytes of a group. *)
Lemma pack3_symbols_inj (a0 a1 a2 b0 b1 b2 : byte) :
  symbol (pack3 a0 a1 a2) 0 = symbol (pack3 b0 b1 b2) 0 ->
  symbol (pack3 a0 a1 a2) 1 = symbol (pack3 b0 b1 b2) 1 ->
  symbol (pack3 a0 a1 a2) 2 = symbol (pack3 b0 b1 b2) 2 ->
  symbol (pack3 a0 a1 a2) 3 = symbol (pack3 b0 b1 b2) 3 ->
  a0 = b0 /\ a1 = b1 /\ a2 = b2.
Proof.
  intros E0 E1 E2 E3.
  apply symbol_inj in E0, E1, E2, E3.
  rewrite !digit_0 in E0. rewrite !digit_1 in E1.
  rewrite !digit_2 in E2. rewrite !digit_3 in E3.
  rewrite !pack3_sum in *.
  pose proof (uint_range a0). pose proof (uint_range a1). pose proof (uint_range a2).
  pose proof (uint_range b0). pose proof (uint_range b1). pose proof (uint_range b2).
  assert (uint a0 = uint b0 /\ uint a1 = uint b1 /\ uint a2 = uint b2) as (? & ? & ?)
    by (Z.div_mod_to_equations; lia).
  auto using uint_inj.
Qed.

(** Three symbols determine the two bytes of a trailing group. *)
Lemma pack2_symbols_inj (a0 a1 b0 b1 : byte) :
  symbol (pack2 a0 a1) 0 = symbol (pack2 b0 b1) 0 ->
  symbol (pack2 a0 a1) 1 = symbol (pack2 b0 b1) 1 ->
  symbol (pack2 a0 a1) 2 = symbol (pack2 b0 b1) 2 ->
  a0 = b0 /\ a1 = b1.
Proof.
  intros E0 E1 E2.
  apply symbol_inj in E0, E1, E2.
  rewrite !digit_0 in E0. rewrite !digit_1 in E1. rewrite !digit_2 in E2.
  rewrite !pack2_sum in *.
  pose proof (uint_range a0). pose proof (uint_range a1).
  pose proof (uint_range b0). pose proof (uint_range b1).
  assert (uint a0 = uint b0 /\ uint a1 = uint b1) as (? & ?)
    by (Z.div_mod_to_equations; lia).
  auto using uint_inj.
Qed.

(** Two symbols determine the byte of a trailing group. *)
Lemma byte_symbols_inj (a0 b0 : byte) :
  symbol (uint a0) 0 = symbol (uint b0) 0 ->
  symbol (uint a0) 1 = symbol (uint b0) 1 ->
  a0 = b0.
Proof.
  intros E0 E1.
  apply symbol_inj in E0, E1.
  rewrite !digit_0 in E0. rewrite !digit_1 in E1.
  pose proof (uint_range a0). pose proof (uint_range b0).
  apply uint_inj. Z.div_mod_to_equations. lia.
Qed.

(* ===================================================================== *)
(** ** [encode64Bytes]: alphabet, length, injectivity *)
(* ===================================================================== *)

(** Induction on a byte sequence three bytes at a time. *)
Lemma bytes_ind3 (P : list byte -> Prop) :
  P [] ->
  (forall b0, P [b0]) ->
  (forall b0 b1, P [b0; b1]) ->
  (forall b0 b1 b2 rest, P rest -> P (b0 :: b1 :: b2 :: rest)) ->
  forall src, P src.
Proof.
  intros H0 H1 H2 H3 src.
  induction src as [src IH] using (induction_ltof1 _ (@length byte)).
  destruct src as [|b0 [|b1 [|b2 rest]]]; auto.
  apply H3, IH. unfold ltof. simpl. lia.
Qed.

Lemma encode64Bytes_alphabet (src : list byte) (c : byte) :
  In c (encode64Bytes src) -> In c itoa64.
Proof.
  induction src as [|b0|b0 b1|b0 b1 b2 rest IH] using bytes_ind3.
  - intros [].
  - rewrite encode64Bytes_one. intros [<-|[<-|[]]]; apply symbol_In.
  - rewrite encode64Bytes_two. intros [<-|[<-|[<-|[]]]]; apply symbol_In.
  - rewrite encode64Bytes_cons3. cbv zeta. intros HIn.
    apply in_app_or in HIn as [[<-|[<-|[<-|[<-|[]]]]]|HIn];
      try apply symbol_In.
    apply IH, HIn.
Qed.

Lemma dollar_foreign : foreign dollar.
Proof.
  unfold foreign. intros HIn.
  apply (in_map Byte.to_nat) in HIn. vm_compute in HIn.
  repeat (destruct HIn as [HIn|HIn]; [discriminate HIn|]). exact HIn.
Qed.

Lemma equals_sign_foreign : foreign equals_sign.
Proof.
  unfold foreign. intros HIn.
  apply (in_map Byte.to_nat) in HIn. vm_compute in HIn.
  repeat (destruct HIn as [HIn|HIn]; [discriminate HIn|]). exact HIn.
Qed.

Lemma encode64Bytes_no_foreign (src : list byte) (c : byte) :
  foreign c -> ~ In c (encode64Bytes src).
Proof. intros Hc HIn. apply Hc. eapply encode64Bytes_alphabet, HIn. Qed.

Lemma encoded_length_add3 (n : nat) :
  encoded_length (3 + n) = (4 + encoded_length n)%nat.
Proof.
  unfold encoded_length.
  replace (3 + n)%nat with (n + 1 * 3)%nat by lia.
  rewrite Nat.div_add, Nat.Div0.mod_add by lia. lia.
Qed.

Lemma encode64Bytes_length (src : list byte) :
  length (encode64Bytes src) = encoded_length (length src).
Proof.
  induction src as [|b0|b0 b1|b0 b1 b2 rest IH] using bytes_ind3;
    try reflexivity.
  rewrite encode64Bytes_cons3.
  change (length (b0 :: b1 :: b2 :: rest)) with (3 + length rest)%nat.
  rewrite encoded_length_add3. cbn [length app]. rewrite IH. reflexivity.
Qed.

(** Complete groups are encoded independently of what follows them. *)
Lemma encode64Bytes_app (front tail : list byte) :
  (length front mod 3 = 0)%nat ->
  encode64Bytes (front ++ tail) = encode64Bytes front ++ encode64Bytes tail.
Proof.
  induction front as [|b0|b0 b1|b0 b1 b2 rest IH] using bytes_ind3; intros Hlen.
  - reflexivity.
  - discriminate Hlen.
  - discriminate Hlen.
  - change ((b0 :: b1 :: b2 :: rest) ++ tail) with (b0 :: b1 :: b2 :: (rest ++ tail)).
    rewrite !encode64Bytes_cons3. cbv zeta. rewrite IH; [reflexivity|].
    replace (length (b0 :: b1 :: b2 :: rest)) with (length rest + 1 * 3)%nat in Hlen
      by (simpl; lia).
    rewrite Nat.Div0.mod_add in Hlen. exact Hlen.
Qed.

Lemma encode64Bytes_inj (x y : list byte) :
  encode64Bytes x = encode64Bytes y -> x = y.
Proof.
  revert y.
  induction x as [|a0|a0 a1|a0 a1 a2 x IH] using bytes_ind3;
    intros [|b0 [|b1 [|b2 y]]];
    rewrite ?encode64Bytes_cons3, ?encode64Bytes_one, ?encode64Bytes_two,
      ?encode64Bytes_nil;
    cbv zeta; cbn [app]; intros E; try discriminate E; try reflexivity.
  - injection E as E0 E1. f_equal. apply byte_symbols_inj; assumption.
  - injection E as E0 E1 E2.
    destruct (pack2_symbols_inj a0 a1 b0 b1) as [-> ->]; auto.
  - injection E as E0 E1 E2 E3 E.
    destruct (pack3_symbols_inj a0 a1 a2 b0 b1 b2) as (-> & -> & ->); auto.
    f_equal. f_equal. f_equal. apply IH, E.
Qed.

(* ===================================================================== *)
(** ** [encode64Uint32]: the loop in closed form *)
(* ===================================================================== *)

Lemma wrap_int_id (x : Z) : - 2 ^ 63 <= x < 2 ^ 63 -> wrap_int x = x.
Proof. unfold wrap_int. intros Hx. rewrite Z.mod_small by lia. lia. Qed.

Lemma digit_shiftr (v k : Z) : 0 <= k -> digit (Z.shiftr v 6) k = digit v (k + 1).
Proof.
  intros Hk. unfold digit. rewrite Z.shiftr_shiftr by lia.
  f_equal. f_equal. lia.
Qed.

Lemma symbols_of_S (value : Z) (n : nat) :
  symbols_of value (S n) = symbol value 0 :: symbols_of (Z.shiftr value 6) n.
Proof.
  unfold symbols_of. cbn [seq map]. f_equal.
  rewrite <- seq_shift, map_map. apply map_ext. intros k.
  unfold symbol. rewrite digit_shiftr by lia. f_equal. f_equal. lia.
Qed.

Lemma symbols_of_length (value : Z) (n : nat) : length (symbols_of value n) = n.
Proof. unfold symbols_of. rewrite length_map, length_seq. reflexivity. Qed.

(** The number of iterations is the ceiling of [bits / 6]. *)
Lemma ceiling_div6 (bits : Z) :
  6 * ((bits + 5) / 6 - 1) < bits <= 6 * ((bits + 5) / 6).
Proof. Z.div_mod_to_equations. lia. Qed.

(** With enough iterations allowed and a width the counter can pass without
    overflow, the loop exits through its condition and has appended one
    symbol for every six bits (or part of six bits) left. *)
Lemma encode64Uint32_loop_spec (fuel : nat) :
  forall (bits i value : Z) (result : list byte),
    - 2 ^ 63 <= i -> bits < 2 ^ 63 - 6 ->
    (Z.to_nat (bits - i) <= fuel)%nat ->
    encode64Uint32_loop fuel bits i value result
    = result ++ symbols_of value (Z.to_nat ((bits - i + 5) / 6)).
Proof.
  induction fuel as [|fuel IH]; intros bits i value result Hi Hbits Hfuel.
  - cbn [encode64Uint32_loop].
    replace (Z.to_nat ((bits - i + 5) / 6)) with 0%nat
      by (Z.div_mod_to_equations; lia).
    cbn. rewrite app_nil_r. reflexivity.
  - cbn [encode64Uint32_loop]. destruct (Z.ltb_spec i bits) as [Hlt|Hge].
    + rewrite wrap_int_id by lia. rewrite IH by lia.
      replace (Z.to_nat ((bits - i + 5) / 6))
        with (S (Z.to_nat ((bits - (i + 6) + 5) / 6)))
        by (Z.div_mod_to_equations; lia).
      rewrite symbols_of_S, symbol_0, <- app_assoc. reflexivity.
    + replace (Z.to_nat ((bits - i + 5) / 6)) with 0%nat
        by (Z.div_mod_to_equations; lia).
      cbn. rewrite app_nil_r. reflexivity.
Qed.

Lemma encode64Uint32_symbols (value bits : Z) :
  bits < 2 ^ 63 - 6 ->
  encode64Uint32 value bits = symbols_of value (Z.to_nat ((bits + 5) / 6)).
Proof.
  intros Hbits. unfold encode64Uint32.
  rewrite encode64Uint32_loop_spec by lia.
  rewrite Z.sub_0_r. reflexivity.
Qed.

Lemma encode64Uint32_alphabet (value bits : Z) (c : byte) :
  In c (encode64Uint32 value bits) -> In c itoa64.
Proof.
  unfold encode64Uint32. generalize (Z.to_nat bits) as fuel.
  assert (forall fuel i v result,
             (forall x, In x result -> In x itoa64) ->
             In c (encode64Uint32_loop fuel bits i v result) -> In c itoa64) as L.
  { induction fuel as [|fuel IH]; intros i v result Hres; cbn [encode64Uint32_loop].
    - apply Hres.
    - destruct (i <? bits); [|apply Hres].
      apply IH. intros x Hx. apply in_app_or in Hx as [Hx|[<-|[]]].
      + apply Hres, Hx.
      + apply itoa64_at_In, land_63_range. }
  intros fuel. apply L. intros x [].
Qed.

(* ===================================================================== *)
(** ** [strings.LastIndex] and slice expressions *)
(* ===================================================================== *)

Lemma LastIndex_scan_app (a b : list byte) (sep : byte) (i found : Z) :
  LastIndex_scan (a ++ b) sep i found
  = LastIndex_scan b sep (i + len a) (LastIndex_scan a sep i found).
Proof.
  revert i found. induction a as [|x a IH]; intros i found.
  - cbn. rewrite len_nil, Z.add_0_r. reflexivity.
  - cbn [app LastIndex_scan]. rewrite IH, len_cons. f_equal. lia.
Qed.

Lemma LastIndex_scan_absent (s : list byte) (sep : byte) (i found : Z) :
  ~ In sep s -> LastIndex_scan s sep i found = found.
Proof.
  revert i found. induction s as [|x s IH]; intros i found Hnot; [reflexivity|].
  cbn [LastIndex_scan]. rewrite IH by (intros HIn; apply Hnot; right; exact HIn).
  destruct (Byte.eqb x sep) eqn:E; [|reflexivity].
  apply Byte.byte_dec_bl in E. exfalso. apply Hnot. left. exact E.
Qed.

(** The scan returns what it was given or an index of the scanned part. *)
Lemma LastIndex_scan_range (s : list byte) (sep : byte) (i found : Z) :
  LastIndex_scan s sep i found = found
  \/ i <= LastIndex_scan s sep i found < i + len s.
Proof.
  revert i found. induction s as [|x s IH]; intros i found; [left; reflexivity|].
  cbn [LastIndex_scan]. rewrite len_cons. pose proof (len_nonneg s).
  destruct (IH (i + 1) (if Byte.eqb x sep then i else found)) as [E|R].
  - rewrite E. destruct (Byte.eqb x sep); [right; lia|left; reflexivity].
  - right. lia.
Qed.

Lemma strings_LastIndex_range (s : list byte) (sep : byte) :
  -1 <= strings_LastIndex s sep < len s.
Proof.
  unfold strings_LastIndex. pose proof (len_nonneg s).
  destruct (LastIndex_scan_range s sep 0 (-1)) as [E|R]; lia.
Qed.

(** The last occurrence is where the separator is followed by none. *)
Lemma strings_LastIndex_last (a b : list byte) (sep : byte) :
  ~ In sep b -> strings_LastIndex (a ++ sep :: b) sep = len a.
Proof.
  intros Hnot. unfold strings_LastIndex.
  rewrite LastIndex_scan_app. cbn [LastIndex_scan].
  rewrite Byte.byte_dec_lb by reflexivity.
  rewrite LastIndex_scan_absent by exact Hnot. lia.
Qed.

Lemma slice_middle (a b c : list byte) :
  slice (a ++ b ++ c) (len a) (len a + len b) = Some b.
Proof.
  unfold slice. rewrite !len_app.
  pose proof (len_nonneg a). pose proof (len_nonneg b). pose proof (len_nonneg c).
  destruct (Z.leb_spec 0 (len a)); [|lia].
  destruct (Z.leb_spec (len a) (len a + len b)); [|lia].
  destruct (Z.leb_spec (len a + len b) (len a + (len b + len c))); [|lia].
  cbn [andb]. f_equal. unfold len.
  rewrite Nat2Z.id. replace (Z.to_nat _) with (length b) by lia.
  rewrite drop_app_length, take_app_length. reflexivity.
Qed.

Lemma slice_prefix (a c : list byte) : slice (a ++ c) 0 (len a) = Some a.
Proof.
  pose proof (slice_middle [] a c) as E. rewrite len_nil in E. exact E.
Qed.

Lemma slice_suffix (a b : list byte) : slice (a ++ b) (len a) (len (a ++ b)) = Some b.
Proof.
  pose proof (slice_middle a b []) as E. rewrite app_nil_r in E.
  rewrite len_app. exact E.
Qed.

Lemma slice_defined (s : list byte) (lo hi : Z) :
  0 <= lo <= hi -> hi <= len s -> exists t, slice s lo hi = Some t.
Proof.
  intros [Hlo Hhi] Hlen. unfold slice.
  destruct (Z.leb_spec 0 lo); [|lia]. destruct (Z.leb_spec lo hi); [|lia].
  destruct (Z.leb_spec hi (len s)); [|lia]. eexists. reflexivity.
Qed.

Lemma slice_panics (s : list byte) (lo hi : Z) : hi < lo -> slice s lo hi = None.
Proof.
  intros Hlt. unfold slice. destruct (Z.leb_spec lo hi); [lia|].
  rewrite andb_false_r. reflexivity.
Qed.

(* ===================================================================== *)
(** ** The scrypt encoder and verifier *)
(* ===================================================================== *)

Section Scrypt.
Context `{Primitives}.

Lemma scrypt_params_value : scrypt_params = str "C6..../....".
Proof. reflexivity. Qed.

(** [hashSCrypt] when the random source delivers: the salt is the next 32
    bytes, and the key is derived from its encoding. *)
Lemma hashSCrypt_run (password : list byte) (rng : entropy) :
  (32 <= length rng)%nat ->
  hashSCrypt password rng
  = (match scrypt_Key password (encode64Bytes (firstn 32 rng)) 16384 8 1 32 with
     | Some dk =>
         Ok (str "$7$" ++ scrypt_params ++ encode64Bytes (firstn 32 rng)
               ++ str "$" ++ encode64Bytes dk)
     | None => Err ScryptError
     end, skipn 32 rng).
Proof.
  intros Hrng. unfold hashSCrypt, bind, rand_Read.
  destruct (Nat.leb_spec 32 (length rng)) as [_|Hlt]; [|lia].
  destruct (scrypt_Key password (encode64Bytes (firstn 32 rng)) 16384 8 1 32);
    [|reflexivity].
  unfold ret, scrypt_params. rewrite <- !app_assoc. reflexivity.
Qed.

(** [hashSCrypt] when the random source fails. *)
Lemma hashSCrypt_no_entropy (password : list byte) (rng : entropy) :
  (length rng < 32)%nat -> hashSCrypt password rng = (Err RandError, []).
Proof.
  intros Hrng. unfold hashSCrypt, bind, rand_Read.
  destruct (Nat.leb_spec 32 (length rng)) as [Hle|_]; [lia|reflexivity].
Qed.

(** The fields of a string of the escrypt shape, as [verifySCrypt] cuts
    them: the last ['$'] is the one before the expected key, the salt is
    what lies between index 14 and it. *)
Lemma mcf_fields (params salt expected : list byte) :
  length params = 11%nat ->
  ~ In dollar expected ->
  let stored := str "$7$" ++ params ++ salt ++ dollar :: expected in
  len stored = 14 + len salt + 1 + len expected
  /\ slice stored 0 3 = Some (str "$7$")
  /\ strings_LastIndex stored dollar = 14 + len salt
  /\ slice stored 14 (14 + len salt) = Some salt
  /\ slice stored (14 + len salt + 1) (len stored) = Some expected.
Proof.
  intros Hparams Hexpected stored.
  assert (len params = 11) as Hp by (unfold len; lia).
  assert (len (str "$7$" ++ params) = 14) as H14
    by (rewrite len_app, Hp; reflexivity).
  split; [|split; [|split; [|split]]].
  - unfold stored. rewrite !len_app, len_cons, Hp. change (len (str "$7$")) with 3. lia.
  - apply (slice_prefix (str "$7$")).
  - unfold stored.
    replace (str "$7$" ++ params ++ salt ++ dollar :: expected)
      with (((str "$7$" ++ params) ++ salt) ++ dollar :: expected)
      by (rewrite <- !app_assoc; reflexivity).
    rewrite strings_LastIndex_last by exact Hexpected.
    rewrite (len_app (str "$7$" ++ params) salt), H14. reflexivity.
  - unfold stored. rewrite <- H14.
    replace (str "$7$" ++ params ++ salt ++ dollar :: expected)
      with ((str "$7$" ++ params) ++ salt ++ dollar :: expected)
      by (rewrite <- !app_assoc; reflexivity).
    apply slice_middle.
  - unfold stored.
    replace (str "$7$" ++ params ++ salt ++ dollar :: expected)
      with ((((str "$7$" ++ params) ++ salt) ++ [dollar]) ++ expected)
      by (rewrite <- !app_assoc; reflexivity).
    replace (14 + len salt + 1)
      with (len (((str "$7$" ++ params) ++ salt) ++ [dollar]))
      by (rewrite (len_app _ [dollar]), (len_app _ salt), H14; reflexivity).
    apply slice_suffix.
Qed.

(** [verifySCrypt] on a string of the escrypt shape: ["$7$"], eleven
    characters that are not looked at, a salt, the last ['$'] and the
    expected key.  The salt is handed to [scrypt.Key] as it stands. *)
Lemma verifySCrypt_mcf (params salt expected password : list byte) :
  length params = 11%nat ->
  ~ In dollar expected ->
  verifySCrypt (str "$7$" ++ params ++ salt ++ dollar :: expected) password
  = match scrypt_Key password salt 16384 8 1 32 with
    | Some dk => Returns (bytes_eqb (encode64Bytes dk) expected)
    | None => Returns false
    end.
Proof.
  intros Hparams Hexpected.
  destruct (mcf_fields params salt expected Hparams Hexpected)
    as (Hlen & Hprefix & Hlast & Hsalt & Hkey).
  unfold verifySCrypt.
  pose proof (len_nonneg salt). pose proof (len_nonneg expected).
  destruct (Z.ltb_spec (len (str "$7$" ++ params ++ salt ++ dollar :: expected)) 14);
    [lia|].
  rewrite Hprefix, bytes_eqb_refl. cbn [negb]. rewrite Hlast.
  destruct (Z.leb_spec (14 + len salt) 3); [lia|].
  rewrite Hsalt, Hkey. reflexivity.
Qed.

(** Whatever [hashSCrypt] returns as a hash, [verifySCrypt] accepts with the
    same password. *)
Lemma verifySCrypt_hashSCrypt (password : list byte) (rng rng' : entropy) (h : list byte) :
  hashSCrypt password rng = (Ok h, rng') ->
  verifySCrypt h password = Returns true /\ firstn 3 h = str "$7$".
Proof.
  intros Hhash.
  destruct (Nat.le_gt_cases 32 (length rng)) as [Hrng|Hrng].
  - rewrite hashSCrypt_run in Hhash by exact Hrng.
    destruct (scrypt_Key password (encode64Bytes (firstn 32 rng)) 16384 8 1 32)
      as [dk|] eqn:Hdk; [|discriminate Hhash].
    assert (h = str "$7$" ++ scrypt_params ++ encode64Bytes (firstn 32 rng)
                  ++ str "$" ++ encode64Bytes dk) as -> by congruence.
    clear Hhash. split; [|reflexivity].
    change (str "$" ++ encode64Bytes dk) with (dollar :: encode64Bytes dk).
    rewrite verifySCrypt_mcf.
    + rewrite Hdk, bytes_eqb_refl. reflexivity.
    + reflexivity.
    + apply encode64Bytes_no_foreign, dollar_foreign.
  - rewrite hashSCrypt_no_entropy in Hhash by exact Hrng. discriminate Hhash.
Qed.

End Scrypt.

(* ===================================================================== *)
(** ** What [verifySCrypt] does with a malformed string *)
(* ===================================================================== *)

Section Malformed.
Context `{Primitives}.

Lemma verifySCrypt_short (storedHash password : list byte) :
  len storedHash < 14 -> verifySCrypt storedHash password = Returns false.
Proof.
  intros Hshort. unfold verifySCrypt.
  destruct (Z.ltb_spec (len storedHash) 14); [reflexivity|lia].
Qed.

Lemma verifySCrypt_no_prefix (storedHash password : list byte) :
  firstn 3 storedHash <> str "$7$" ->
  verifySCrypt storedHash password = Returns false.
Proof.
  intros Hprefix. unfold verifySCrypt.
  destruct (Z.ltb_spec (len storedHash) 14) as [|Hlen]; [reflexivity|].
  unfold slice. pose proof (len_nonneg storedHash).
  destruct (Z.leb_spec 3 (len storedHash)); [|lia]. cbn [Z.leb andb Z.compare].
  change (Z.to_nat (3 - 0)) with 3%nat. change (Z.to_nat 0) with 0%nat.
  rewrite drop_0.
  destruct (bytes_eqb (firstn 3 storedHash) (str "$7$")) eqn:E; [|reflexivity].
  apply bytes_eqb_eq in E. contradiction.
Qed.

Lemma verifySCrypt_no_separator (storedHash password : list byte) :
  strings_LastIndex storedHash dollar <= 3 ->
  verifySCrypt storedHash password = Returns false.
Proof.
  intros Hlast. unfold verifySCrypt.
  destruct (Z.ltb_spec (len storedHash) 14) as [|Hlong]; [reflexivity|].
  destruct (slice_defined storedHash 0 3) as [prefix ->]; [lia|lia|].
  destruct (negb (bytes_eqb prefix (str "$7$"))); [reflexivity|].
  destruct (Z.leb_spec (strings_LastIndex storedHash dollar) 3); [reflexivity|lia].
Qed.

(** The panic of [verifySCrypt], exactly: the string is long enough and has
    the prefix, and its last ['$'] sits inside the eleven parameter
    characters, so that the slice [storedHash[14:lastDollar]] has its bounds
    inverted. *)
Lemma verifySCrypt_panics_iff (storedHash password : list byte) :
  verifySCrypt storedHash password = Panics
  <-> 14 <= len storedHash
      /\ slice storedHash 0 3 = Some (str "$7$")
      /\ 3 < strings_LastIndex storedHash dollar < 14.
Proof.
  unfold verifySCrypt.
  pose proof (strings_LastIndex_range storedHash dollar) as Hrange.
  destruct (Z.ltb_spec (len storedHash) 14) as [Hshort|Hlong].
  { split; [discriminate|]. intros (? & _). lia. }
  destruct (slice_defined storedHash 0 3) as [prefix Hprefix]; [lia|lia|].
  rewrite Hprefix.
  destruct (bytes_eqb prefix (str "$7$")) eqn:E; cbn [negb].
  2:{ split; [discriminate|]. intros (_ & E' & _).
      injection E' as ->. rewrite bytes_eqb_refl in E. discriminate E. }
  apply bytes_eqb_eq in E. subst prefix.
  destruct (Z.leb_spec (strings_LastIndex storedHash dollar) 3) as [Hle|Hgt].
  { split; [discriminate|]. intros (_ & _ & ?). lia. }
  destruct (Z.lt_ge_cases (strings_LastIndex storedHash dollar) 14) as [Hin|Hout].
  - rewrite slice_panics by exact Hin. split; [|reflexivity].
    intros _. repeat split; auto; lia.
  - destruct (slice_defined storedHash 14 (strings_LastIndex storedHash dollar))
      as [salt ->]; [lia|lia|].
    destruct (slice_defined storedHash (strings_LastIndex storedHash dollar + 1)
                (len storedHash)) as [expected ->]; [lia|lia|].
    split; [|intros (_ & _ & ?); lia].
    destruct (scrypt_Key password salt 16384 8 1 32); discriminate.
Qed.

End Malformed.

(* ===================================================================== *)
(** ** The stand-in primitives *)
(* ===================================================================== *)

Lemma test_digest_length (n : nat) (s : list byte) : length (test_digest n s) = n.
Proof.
  unfold test_digest. rewrite length_take, length_app, repeat_length. lia.
Qed.

Lemma test_primitives_interactive : @scrypt_Key_interactive test_primitives.
Proof.
  intros password salt. eexists. split; [reflexivity|].
  apply test_digest_length.
Qed.

(* ===================================================================== *)
(** ** Properties of the specification: scrypt *)
(* ===================================================================== *)

(** C1.  Scrypt round trip.  For every username and password, when the random
    source delivers the 32 salt bytes and [scrypt.Key] keeps to its
    documentation, [generate(u, p, 14)] returns a hash; verifying that hash
    against the same password returns true; the hash starts with ["$7$"] and
    has [3 + 1 + 5 + 5 + 43 + 1 + 43 = 101] characters.  (The password need
    not be non-empty for this.) *)
Theorem scrypt_round_trip `{Primitives}
  (username password : list byte) (rng : entropy) :
  scrypt_Key_interactive ->
  (32 <= length rng)%nat ->
  exists h,
    eqcryptHash username password 14 rng = (Ok h, skipn 32 rng)
    /\ verifySCrypt h password = Returns true
    /\ firstn 3 h = str "$7$"
    /\ length h = (3 + 1 + 5 + 5 + 43 + 1 + 43)%nat
    /\ length h = 101%nat.
Proof.
  intros Hkdf Hrng.
  change (eqcryptHash username password 14 rng) with (hashSCrypt password rng).
  destruct (Hkdf password (encode64Bytes (firstn 32 rng))) as (dk & Hdk & Hlen).
  pose proof (hashSCrypt_run password rng Hrng) as Hrun. rewrite Hdk in Hrun.
  eexists. split; [exact Hrun|].
  destruct (verifySCrypt_hashSCrypt _ _ _ _ Hrun) as [Hverify Hprefix].
  repeat split; try assumption.
  all: rewrite !length_app, !encode64Bytes_length, Hlen, length_take;
    replace (32 `min` length rng)%nat with 32%nat by lia; reflexivity.
Qed.

Lemma scrypt_round_trip_witness :
  @scrypt_Key_interactive test_primitives
  /\ (32 <= length (str "0123456789abcdefghijklmnopqrstuv"))%nat
  /\ exists h,
       @eqcryptHash test_primitives (str "tester") (str "correcthorse") 14
         (str "0123456789abcdefghijklmnopqrstuv") = (Ok h, [])
       /\ @verifySCrypt test_primitives h (str "correcthorse") = Returns true
       /\ firstn 3 h = str "$7$"
       /\ length h = (3 + 1 + 5 + 5 + 43 + 1 + 43)%nat
       /\ length h = 101%nat.
Proof.
  split; [exact test_primitives_interactive|].
  split; [vm_compute; reflexivity|].
  apply (@scrypt_round_trip test_primitives (str "tester") (str "correcthorse")
           (str "0123456789abcdefghijklmnopqrstuv")).
  - exact test_primitives_interactive.
  - vm_compute. reflexivity.
Defined.

(** The same hash with another password is refused, on the stand-ins. *)
Example scrypt_wrong_password :
  forall h rng',
    @eqcryptHash test_primitives (str "tester") (str "correcthorse") 14
      (str "0123456789abcdefghijklmnopqrstuv") = (Ok h, rng') ->
    @verifySCrypt test_primitives h (str "wrong") = Returns false.
Proof.
  intros h rng' E. vm_compute in E. injection E as <- _. vm_compute. reflexivity.
Qed.

(** C2.  [verifySCrypt] does not return a boolean for every stored hash.  On
    a string with the ["$7$"] prefix and at least 14 characters whose last
    ['$'] lies inside the parameter block (index 7 here), so that no ['$']
    follows the parameters and the salt, the guard [lastDollar <= 3] is false
    and the slice [storedHash[14:lastDollar]] panics, for every password and
    whatever [scrypt.Key] is. *)
Theorem verifySCrypt_panics_on_early_separator `{Primitives} (password : list byte) :
  verifySCrypt (str "$7$aaaa$aaaaaaaaaaa") password = Panics.
Proof. reflexivity. Qed.

(** C3.  In mode 14 the key-derivation function is called on the password and
    the bytes of the ENCODED salt, with [N = 16384], [r = 8], [p = 1] and key
    length 32: the result of the engine is a function of the value of
    [scrypt.Key] at exactly these arguments (and changes when that value
    changes), and the encoded salt is never the raw salt.  The string returned
    is ["$7$"], the symbols of 14 on 6 bits, of 8 and of 1 on 30 bits, the
    encoded salt, ["$"] and the encoded key, where the symbols of a value on
    [bits] bits are its [ceil(bits / 6)] groups of 6 bits, least significant
    first ([(bits + 5) / 6] is that ceiling; the width is one the [int]
    counter of the loop passes without overflow). *)
Theorem hashSCrypt_kdf_input_and_layout (P : Primitives)
  (username password : list byte) (rng : entropy) :
  (32 <= length rng)%nat ->
  let rawSalt := firstn 32 rng in
  let encodedSalt := encode64Bytes rawSalt in
  eqcryptHash username password 14 rng
  = (match scrypt_Key password encodedSalt 16384 8 1 32 with
     | Some dk =>
         Ok (str "$7$" ++ encode64Uint32 14 6 ++ encode64Uint32 8 30
               ++ encode64Uint32 1 30 ++ encodedSalt ++ str "$" ++ encode64Bytes dk)
     | None => Err ScryptError
     end, skipn 32 rng)
  /\ encodedSalt <> rawSalt
  /\ (forall other : Primitives,
         @eqcryptHash other username password 14 rng
         = @eqcryptHash P username password 14 rng
         <-> @scrypt_Key other password encodedSalt 16384 8 1 32
             = @scrypt_Key P password encodedSalt 16384 8 1 32)
  /\ (forall value bits : Z,
         bits < 2 ^ 63 - 6 ->
         encode64Uint32 value bits
         = map (fun k => itoa64_at (Z.land (Z.shiftr value (6 * Z.of_nat k)) 63))
             (seq 0 (Z.to_nat ((bits + 5) / 6)))
         /\ 6 * ((bits + 5) / 6 - 1) < bits <= 6 * ((bits + 5) / 6)).
Proof.
  intros Hrng rawSalt encodedSalt.
  assert (forall Q : Primitives,
             @eqcryptHash Q username password 14 rng
             = (match @scrypt_Key Q password encodedSalt 16384 8 1 32 with
                | Some dk =>
                    Ok (str "$7$" ++ scrypt_params ++ encodedSalt
                          ++ str "$" ++ encode64Bytes dk)
                | None => Err ScryptError
                end, skipn 32 rng)) as Hrun.
  { intros Q. apply (@hashSCrypt_run Q), Hrng. }
  split; [|split; [|split]].
  - rewrite Hrun.
    destruct (scrypt_Key password encodedSalt 16384 8 1 32); [|reflexivity].
    unfold scrypt_params. rewrite <- !app_assoc. reflexivity.
  - intros E. apply (f_equal (@length byte)) in E.
    unfold encodedSalt, rawSalt in E.
    rewrite encode64Bytes_length, length_take in E.
    replace (32 `min` length rng)%nat with 32%nat in E by lia.
    discriminate E.
  - intros other. rewrite !Hrun. split.
    + intros E. apply (f_equal fst) in E. cbn [fst] in E.
      destruct (@scrypt_Key other password encodedSalt 16384 8 1 32) as [dk1|];
        destruct (@scrypt_Key P password encodedSalt 16384 8 1 32) as [dk2|].
      * apply (f_equal (fun r => match r with Ok h => h | Err _ => [] end)) in E.
        do 4 apply app_inv_head in E.
        apply encode64Bytes_inj in E. congruence.
      * discriminate E.
      * discriminate E.
      * reflexivity.
    + intros ->. reflexivity.
  - intros value bits Hbits. split.
    + apply encode64Uint32_symbols, Hbits.
    + apply ceiling_div6.
Qed.

Lemma hashSCrypt_kdf_input_and_layout_witness :
  (32 <= length (str "0123456789abcdefghijklmnopqrstuv"))%nat
  /\ @eqcryptHash test_primitives (str "tester") (str "correcthorse") 14
       (str "0123456789abcdefghijklmnopqrstuv")
     = (match @scrypt_Key test_primitives (str "correcthorse")
                (encode64Bytes (str "0123456789abcdefghijklmnopqrstuv"))
                16384 8 1 32 with
        | Some dk =>
            Ok (str "$7$" ++ encode64Uint32 14 6 ++ encode64Uint32 8 30
                  ++ encode64Uint32 1 30
                  ++ encode64Bytes (str "0123456789abcdefghijklmnopqrstuv")
                  ++ str "$" ++ encode64Bytes dk)
        | None => Err ScryptError
        end, []).
Proof.
  split; [vm_compute; reflexivity|].
  destruct (hashSCrypt_kdf_input_and_layout test_primitives (str "tester")
              (str "correcthorse") (str "0123456789abcdefghijklmnopqrstuv"))
    as (Hrun & _); [vm_compute; reflexivity|].
  exact Hrun.
Defined.

Example hashSCrypt_on_stand_ins :
  @eqcryptHash test_primitives (str "tester") (str "pw") 14
    (str "0123456789abcdefghijklmnopqrstuv")
  = (Ok (str "$7$C6..../....k2XAnEHBqQ1Ct2aMXFKNaR4OddqOgpaPj/LQmB5RpN5$kRrOmUJEiJ2G03LIlA2Rm2KHMNoGC3aIow2NY3rHb/5"),
     []).
Proof. vm_compute. reflexivity. Qed.

(* ===================================================================== *)
(** ** Properties of the specification: legacy digests *)
(* ===================================================================== *)

Lemma at_index_In (s : list byte) (i : Z) :
  0 <= i < len s -> In (at_index s i) s.
Proof.
  intros Hi. unfold at_index. apply nth_In. unfold len in Hi. lia.
Qed.

(** [%x] writes lowercase hexadecimal digits, two a byte. *)
Lemma Sprintf_x_hexdigits (digest : list byte) (c : byte) :
  In c (Sprintf_x digest) -> In c hexdigits.
Proof.
  unfold Sprintf_x. rewrite in_flat_map. intros (b & _ & Hc).
  pose proof (uint_range b) as Hb.
  destruct Hc as [<-|[<-|[]]]; apply at_index_In; change (len hexdigits) with 16.
  - rewrite Z.shiftr_div_pow2 by lia. change (2 ^ 4) with 16.
    Z.div_mod_to_equations. lia.
  - change 15 with (Z.ones 4). rewrite Z.land_ones by lia.
    apply Z.mod_pos_bound. lia.
Qed.

Lemma Sprintf_x_length (digest : list byte) :
  length (Sprintf_x digest) = (2 * length digest)%nat.
Proof.
  unfold Sprintf_x. induction digest as [|b digest IH]; [reflexivity|].
  cbn [flat_map app length]. rewrite IH. lia.
Qed.

(** C4.  For every username, password and mode from 1 to 12, [generate]
    returns, without error and without touching the random source, the entry
    of the table: mode 1 is MD5(password), mode 2 MD5(password:username),
    mode 3 MD5(username:password), mode 4 MD5(hex(MD5(username)) followed by
    hex(MD5(password))), modes 5 to 8 and 9 to 12 the same with SHA1 and
    SHA512.  The result is in lowercase hexadecimal, and the same inputs give
    the same hash whatever the state of the random source. *)
Theorem legacy_modes_table `{Primitives}
  (username password : list byte) (mode : Z) (rng : entropy) :
  1 <= mode <= 12 ->
  eqcryptHash username password mode rng
  = (Ok (legacy_table mode username password), rng)
  /\ (forall c, In c (legacy_table mode username password) -> In c hexdigits)
  /\ (forall rng2,
         fst (eqcryptHash username password mode rng2)
         = fst (eqcryptHash username password mode rng))
  /\ legacy_table 1 username password = Sprintf_x (md5_Sum password)
  /\ legacy_table 2 username password
      = Sprintf_x (md5_Sum (password ++ str ":" ++ username))
  /\ legacy_table 3 username password
      = Sprintf_x (md5_Sum (username ++ str ":" ++ password))
  /\ legacy_table 4 username password
      = Sprintf_x (md5_Sum (Sprintf_x (md5_Sum username) ++ Sprintf_x (md5_Sum password)))
  /\ legacy_table 8 username password
      = Sprintf_x (sha1_Sum (Sprintf_x (sha1_Sum username) ++ Sprintf_x (sha1_Sum password)))
  /\ legacy_table 12 username password
      = Sprintf_x (sha512_Sum512 (Sprintf_x (sha512_Sum512 username)
                                   ++ Sprintf_x (sha512_Sum512 password))).
Proof.
  intros Hmode.
  assert (forall rng', eqcryptHash username password mode rng'
                       = (Ok (legacy_table mode username password), rng')) as Hrun.
  { intros rng'.
    assert (mode = 1 \/ mode = 2 \/ mode = 3 \/ mode = 4 \/ mode = 5 \/ mode = 6
            \/ mode = 7 \/ mode = 8 \/ mode = 9 \/ mode = 10 \/ mode = 11
            \/ mode = 12) as Hcases by lia.
    repeat (destruct Hcases as [->|Hcases]; [reflexivity|]).
    subst mode. reflexivity. }
  split; [apply Hrun|]. split; [|split].
  - intros c. unfold legacy_table.
    repeat match goal with
           | |- context [match ?x with _ => _ end] => destruct x
           end; apply Sprintf_x_hexdigits.
  - intros rng2. rewrite !Hrun. reflexivity.
  - repeat split.
Qed.

Lemma legacy_modes_table_witness :
  1 <= 4 <= 12
  /\ @eqcryptHash test_primitives (str "tester") (str "hunter2") 4 []
     = (Ok (str "37343635373337343635373230303030"), [])
  /\ @legacy_table test_primitives 4 (str "tester") (str "hunter2")
      = str "37343635373337343635373230303030".
Proof.
  split; [lia|].
  destruct (@legacy_modes_table test_primitives (str "tester") (str "hunter2") 4 [])
    as (Hrun & _); [lia|].
  split; [rewrite Hrun|]; vm_compute; reflexivity.
Defined.

(* ===================================================================== *)
(** ** Properties of the specification: Argon2id *)
(* ===================================================================== *)

Lemma encodeStd_at_In (v : Z) : In (encodeStd_at v) encodeStd.
Proof.
  unfold encodeStd_at. apply at_index_In. change (len encodeStd) with 64.
  apply land_63_range.
Qed.

Lemma equals_sign_not_std : ~ In equals_sign encodeStd.
Proof.
  intros HIn. apply (in_map Byte.to_nat) in HIn. vm_compute in HIn.
  repeat (destruct HIn as [HIn|HIn]; [discriminate HIn|]). exact HIn.
Qed.

Lemma RawStdEncoding_alphabet (src : list byte) (c : byte) :
  In c (RawStdEncoding_EncodeToString src) -> In c encodeStd.
Proof.
  induction src as [|b0|b0 b1|b0 b1 b2 rest IH] using bytes_ind3;
    cbn [RawStdEncoding_EncodeToString].
  - intros [].
  - intros [<-|[<-|[]]]; apply encodeStd_at_In.
  - intros [<-|[<-|[<-|[]]]]; apply encodeStd_at_In.
  - intros [<-|[<-|[<-|[<-|HIn]]]]; try apply encodeStd_at_In. apply IH, HIn.
Qed.

Lemma RawStdEncoding_length (src : list byte) :
  length (RawStdEncoding_EncodeToString src) = encoded_length (length src).
Proof.
  induction src as [|b0|b0 b1|b0 b1 b2 rest IH] using bytes_ind3;
    try reflexivity.
  change (length (b0 :: b1 :: b2 :: rest)) with (3 + length rest)%nat.
  rewrite encoded_length_add3. cbn [RawStdEncoding_EncodeToString length].
  rewrite IH. reflexivity.
Qed.

Section Argon2.
Context `{Primitives}.

Lemma hashArgon2_run (password : list byte) (rng : entropy) :
  (16 <= length rng)%nat ->
  hashArgon2 password rng
  = (Ok (str "$argon2id$v=19$m=65536,t=2,p=1$"
           ++ RawStdEncoding_EncodeToString (firstn 16 rng) ++ str "$"
           ++ RawStdEncoding_EncodeToString
                (argon2_IDKey password (firstn 16 rng) 2 65536 1 32)),
     skipn 16 rng).
Proof.
  intros Hrng. unfold hashArgon2, bind, rand_Read.
  destruct (Nat.leb_spec 16 (length rng)) as [_|Hlt]; [|lia].
  reflexivity.
Qed.

Lemma hashArgon2_no_entropy (password : list byte) (rng : entropy) :
  (length rng < 16)%nat -> hashArgon2 password rng = (Err RandError, []).
Proof.
  intros Hrng. unfold hashArgon2, bind, rand_Read.
  destruct (Nat.leb_spec 16 (length rng)) as [Hle|_]; [lia|reflexivity].
Qed.

End Argon2.

(** C5.  For every password, when the random source delivers, mode 13 returns
    ["$argon2id$v=19$m=65536,t=2,p=1$"], the base64 of the salt, ["$"] and
    the base64 of the digest; the salt is the next 16 bytes of the random
    source, which are consumed; the digest is [argon2.IDKey] with time cost
    2, memory cost 65536 KiB, parallelism 1 and key length 32; the base64
    text has only characters of the standard alphabet and no padding: never
    ['='], and 2 or 3 characters for a last group of 1 or 2 bytes. *)
Theorem argon2_phc_string `{Primitives}
  (username password : list byte) (rng : entropy) :
  (16 <= length rng)%nat ->
  let salt := firstn 16 rng in
  let hash := argon2_IDKey password salt 2 65536 1 32 in
  eqcryptHash username password 13 rng
  = (Ok (str "$argon2id$v=19$m=65536,t=2,p=1$"
           ++ RawStdEncoding_EncodeToString salt ++ str "$"
           ++ RawStdEncoding_EncodeToString hash),
     skipn 16 rng)
  /\ length salt = 16%nat
  /\ encodeStd
     = str "ABCDEFGHIJKLMNOPQRSTUVWXYZabcdefghijklmnopqrstuvwxyz0123456789+/"
  /\ (forall (x : list byte) (c : byte),
         In c (RawStdEncoding_EncodeToString x) ->
         In c encodeStd /\ c <> equals_sign)
  /\ (forall x : list byte,
         length (RawStdEncoding_EncodeToString x)
         = (4 * (length x / 3)
            + match length x mod 3 with 0 => 0 | 1 => 2 | _ => 3 end)%nat).
Proof.
  intros Hrng salt hash. split; [|split; [|split; [|split]]].
  - apply hashArgon2_run, Hrng.
  - unfold salt. rewrite length_take. lia.
  - reflexivity.
  - intros x c HIn. apply RawStdEncoding_alphabet in HIn. split; [exact HIn|].
    intros ->. apply equals_sign_not_std, HIn.
  - intros x. apply RawStdEncoding_length.
Qed.

Lemma argon2_phc_string_witness :
  (16 <= length (str "0123456789abcdef"))%nat
  /\ @eqcryptHash test_primitives (str "tester") (str "hunter2") 13
       (str "0123456789abcdef")
     = (Ok (str "$argon2id$v=19$m=65536,t=2,p=1$MDEyMzQ1Njc4OWFiY2RlZg$aHVudGVyMjAxMjM0NTY3ODlhYmNkZWYAAAAAAAAAAAA"),
        []).
Proof.
  split; [vm_compute; reflexivity|].
  destruct (@argon2_phc_string test_primitives (str "tester") (str "hunter2")
              (str "0123456789abcdef")) as (Hrun & _); [vm_compute; reflexivity|].
  rewrite Hrun. vm_compute. reflexivity.
Defined.

(* ===================================================================== *)
(** ** Properties of the specification: the escrypt codec *)
(* ===================================================================== *)

(** C7.  [encode64Bytes] over the alphabet ["./0-9A-Za-z"]: a group of three
    bytes [b0 b1 b2] is the little-endian number [b0 + 256 b1 + 65536 b2] and
    gives its four base-64 digits, least significant first; one byte left
    gives exactly two symbols, the second with an index below 4 (its upper
    four bits are zero); two bytes left give exactly three symbols; complete
    groups are encoded independently of what follows, so the output has 4
    symbols for each complete group plus 0, 2 or 3; and ['='] never
    occurs. *)
Theorem encode64Bytes_little_endian_groups :
  itoa64 = str "./0123456789ABCDEFGHIJKLMNOPQRSTUVWXYZabcdefghijklmnopqrstuvwxyz"
  /\ (forall (b0 b1 b2 : byte) (rest : list byte),
         let v := uint b0 + 256 * uint b1 + 65536 * uint b2 in
         encode64Bytes (b0 :: b1 :: b2 :: rest)
         = [itoa64_at (v mod 64); itoa64_at (v / 64 mod 64);
            itoa64_at (v / 4096 mod 64); itoa64_at (v / 262144)]
           ++ encode64Bytes rest)
  /\ (forall b0 : byte,
         encode64Bytes [b0] = [itoa64_at (uint b0 mod 64); itoa64_at (uint b0 / 64)]
         /\ 0 <= uint b0 / 64 < 4)
  /\ (forall b0 b1 : byte,
         let v := uint b0 + 256 * uint b1 in
         encode64Bytes [b0; b1]
         = [itoa64_at (v mod 64); itoa64_at (v / 64 mod 64); itoa64_at (v / 4096)])
  /\ (forall front tail : list byte,
         (length front mod 3 = 0)%nat ->
         encode64Bytes (front ++ tail) = encode64Bytes front ++ encode64Bytes tail)
  /\ (forall src : list byte,
         length (encode64Bytes src)
         = (4 * (length src / 3)
            + match length src mod 3 with 0 => 0 | 1 => 2 | _ => 3 end)%nat)
  /\ (forall src : list byte, ~ In equals_sign (encode64Bytes src)).
Proof.
  split; [reflexivity|]. split; [|split; [|split; [|split; [|split]]]].
  - intros b0 b1 b2 rest v. rewrite encode64Bytes_cons3. cbv zeta.
    unfold symbol. rewrite digit_0, digit_1, digit_2, digit_3, pack3_sum.
    replace (uint b0 + uint b1 * 256 + uint b2 * 65536) with v by (unfold v; lia).
    pose proof (uint_range b0). pose proof (uint_range b1). pose proof (uint_range b2).
    rewrite (Z.mod_small (v / 262144)); [reflexivity|].
    unfold v. Z.div_mod_to_equations. lia.
  - intros b0. rewrite encode64Bytes_one. unfold symbol.
    rewrite digit_0, digit_1. pose proof (uint_range b0).
    assert (0 <= uint b0 / 64 < 4) as Hhi by (Z.div_mod_to_equations; lia).
    rewrite (Z.mod_small (uint b0 / 64)) by lia. split; [reflexivity|exact Hhi].
  - intros b0 b1 v. rewrite encode64Bytes_two. cbv zeta. unfold symbol.
    rewrite digit_0, digit_1, digit_2, pack2_sum.
    replace (uint b0 + uint b1 * 256) with v by (unfold v; lia).
    pose proof (uint_range b0). pose proof (uint_range b1).
    rewrite (Z.mod_small (v / 4096)); [reflexivity|].
    unfold v. Z.div_mod_to_equations. lia.
  - apply encode64Bytes_app.
  - apply encode64Bytes_length.
  - intros src. apply encode64Bytes_no_foreign, equals_sign_foreign.
Qed.

(** C10.  [encode64Bytes] is injective and its output has only characters
    of the alphabet, so never ['$'].  Hence comparing the encodings of two
    keys, as [verifySCrypt] does, is comparing the keys; and in a hash that
    [hashSCrypt] returns the last ['$'] is the separator between the salt and
    the key: cutting there gives back the encoded salt and the encoded
    key. *)
Theorem encode64Bytes_injective_no_dollar (P : Primitives) :
  (forall x y : list byte, encode64Bytes x = encode64Bytes y -> x = y)
  /\ (forall (x : list byte) (c : byte), In c (encode64Bytes x) -> In c itoa64)
  /\ (forall x : list byte, ~ In dollar (encode64Bytes x))
  /\ (forall dk dk' : list byte,
         bytes_eqb (encode64Bytes dk) (encode64Bytes dk') = true <-> dk = dk')
  /\ (forall (password : list byte) (rng rng' : entropy) (h : list byte),
         @hashSCrypt P password rng = (Ok h, rng') ->
         let encodedSalt := encode64Bytes (firstn 32 rng) in
         let lastDollar := strings_LastIndex h dollar in
         exists dk,
           @scrypt_Key P password encodedSalt 16384 8 1 32 = Some dk
           /\ lastDollar = 14 + 43
           /\ slice h 14 lastDollar = Some encodedSalt
           /\ slice h (lastDollar + 1) (len h) = Some (encode64Bytes dk)).
Proof.
  split; [exact encode64Bytes_inj|]. split; [exact encode64Bytes_alphabet|].
  split; [intros x; apply encode64Bytes_no_foreign, dollar_foreign|].
  split.
  - intros dk dk'. rewrite bytes_eqb_eq. split; [apply encode64Bytes_inj|congruence].
  - intros password rng rng' h Hhash encodedSalt lastDollar.
    destruct (Nat.le_gt_cases 32 (length rng)) as [Hrng|Hrng].
    2:{ rewrite hashSCrypt_no_entropy in Hhash by exact Hrng. discriminate Hhash. }
    rewrite hashSCrypt_run in Hhash by exact Hrng. fold encodedSalt in Hhash.
    destruct (@scrypt_Key P password encodedSalt 16384 8 1 32) as [dk|];
      [|discriminate Hhash].
    exists dk. split; [reflexivity|].
    change (str "$" ++ encode64Bytes dk) with (dollar :: encode64Bytes dk) in Hhash.
    assert (h = str "$7$" ++ scrypt_params ++ encodedSalt ++ dollar :: encode64Bytes dk)
      as Hh by congruence.
    destruct (mcf_fields scrypt_params encodedSalt (encode64Bytes dk))
      as (_ & _ & Hlast & Hsalt & Hkey).
    { reflexivity. }
    { apply encode64Bytes_no_foreign, dollar_foreign. }
    assert (len encodedSalt = 43) as H43.
    { unfold len, encodedSalt. rewrite encode64Bytes_length, length_take.
      replace (32 `min` length rng)%nat with 32%nat by lia. reflexivity. }
    unfold lastDollar. rewrite Hh, Hlast, Hsalt, Hkey, H43. auto.
Qed.

(* ===================================================================== *)
(** ** Properties of the specification: the dispatcher *)
(* ===================================================================== *)

Section Dispatch.
Context `{Primitives}.

(** The [default] branch of the switch. *)
Lemma eqcryptHash_default (username password : list byte) (mode : Z) :
  ~ (1 <= mode <= 14) ->
  eqcryptHash username password mode = fail (UnsupportedMode mode).
Proof.
  intros Hmode. destruct mode as [|p|p]; [reflexivity| |reflexivity].
  do 4 (try destruct p as [p|p|]); try reflexivity; exfalso; apply Hmode; lia.
Qed.

(** The branches of the legacy modes. *)
Lemma eqcryptHash_legacy (username password : list byte) (mode : Z) :
  1 <= mode <= 12 ->
  eqcryptHash username password mode = ret (legacy_table mode username password).
Proof.
  intros Hmode.
  assert (mode = 1 \/ mode = 2 \/ mode = 3 \/ mode = 4 \/ mode = 5 \/ mode = 6
          \/ mode = 7 \/ mode = 8 \/ mode = 9 \/ mode = 10 \/ mode = 11
          \/ mode = 12) as Hcases by lia.
  repeat (destruct Hcases as [->|Hcases]; [reflexivity|]).
  subst mode. reflexivity.
Qed.

Lemma hashArgon2_supported (password : list byte) (rng : entropy) (m : Z) :
  fst (hashArgon2 password rng) <> Err (UnsupportedMode m).
Proof.
  unfold hashArgon2, bind, rand_Read.
  destruct (16 <=? length rng)%nat; cbn [fst ret]; discriminate.
Qed.

Lemma hashSCrypt_supported (password : list byte) (rng : entropy) (m : Z) :
  fst (hashSCrypt password rng) <> Err (UnsupportedMode m).
Proof.
  unfold hashSCrypt, bind, rand_Read.
  destruct (32 <=? length rng)%nat; cbn [fst]; [|discriminate].
  destruct (scrypt_Key password (encode64Bytes (firstn 32 rng)) 16384 8 1 32);
    cbn [fst ret fail]; discriminate.
Qed.

End Dispatch.

(** C8.  [generate] returns the unsupported-mode error if and only if the
    mode is outside 1..14 (and then it names that mode).  For a mode from 1
    to 12 it is the legacy digest of the table, for 13 the Argon2id encoder,
    for 14 the scrypt encoder, none of which returns that error. *)
Theorem unsupported_mode_iff `{Primitives}
  (username password : list byte) (mode : Z) (rng : entropy) :
  ((exists m, fst (eqcryptHash username password mode rng) = Err (UnsupportedMode m))
   <-> ~ (1 <= mode <= 14))
  /\ (~ (1 <= mode <= 14) ->
      eqcryptHash username password mode rng = (Err (UnsupportedMode mode), rng))
  /\ (1 <= mode <= 12 ->
      eqcryptHash username password mode = ret (legacy_table mode username password))
  /\ eqcryptHash username password 13 = hashArgon2 password
  /\ eqcryptHash username password 14 = hashSCrypt password.
Proof.
  split; [|split; [|split; [|split]]].
  - split.
    + intros [m Hm] Hmode.
      destruct (Z.le_gt_cases mode 12) as [Hlegacy|Hkdf].
      * rewrite eqcryptHash_legacy in Hm by lia. discriminate Hm.
      * assert (mode = 13 \/ mode = 14) as [-> | ->] by lia.
        -- exact (hashArgon2_supported password rng m Hm).
        -- exact (hashSCrypt_supported password rng m Hm).
    + intros Hmode. exists mode. rewrite eqcryptHash_default by exact Hmode.
      reflexivity.
  - intros Hmode. rewrite eqcryptHash_default by exact Hmode. reflexivity.
  - apply eqcryptHash_legacy.
  - reflexivity.
  - reflexivity.
Qed.

Example eqcryptHash_mode_0 :
  @eqcryptHash test_primitives (str "tester") (str "hunter2") 0 []
  = (Err (UnsupportedMode 0), []).
Proof. reflexivity. Qed.

Example eqcryptHash_mode_15 :
  @eqcryptHash test_primitives (str "tester") (str "hunter2") 15 []
  = (Err (UnsupportedMode 15), []).
Proof. reflexivity. Qed.

(** The lookup in the table of the modes that need a username. *)
Lemma modeNeedsUsername_at_true (mode : Z) :
  modeNeedsUsername_at mode = true <-> In mode username_modes.
Proof.
  unfold modeNeedsUsername_at. split.
  - intros Hlookup.
    destruct (decide (mode ∈ username_modes)) as [Hin|Hnot].
    + apply list_elem_of_In, Hin.
    + unfold modeNeedsUsername in Hlookup.
      rewrite (not_elem_of_list_to_map_1 _ mode) in Hlookup; [discriminate Hlookup|].
      exact Hnot.
  - intros Hin. unfold username_modes in Hin. cbn [In] in Hin.
    repeat (destruct Hin as [<-|Hin]; [reflexivity|]). destruct Hin.
Qed.

(** C9.  The table of the modes that need a username is true exactly at 2, 3,
    4, 6, 7, 8, 10, 11 and 12; for every other mode from 1 to 14 the result of
    [generate], on the same random source, does not depend on the username. *)
Theorem username_needed_exactly `{Primitives} :
  (forall mode : Z,
      modeNeedsUsername_at mode = true
      <-> In mode [2; 3; 4; 6; 7; 8; 10; 11; 12])
  /\ (forall (mode : Z) (username1 username2 password : list byte) (rng : entropy),
         1 <= mode <= 14 ->
         modeNeedsUsername_at mode = false ->
         eqcryptHash username1 password mode rng
         = eqcryptHash username2 password mode rng).
Proof.
  split; [exact modeNeedsUsername_at_true|].
  intros mode username1 username2 password rng Hmode Hfree.
  assert (mode = 1 \/ mode = 2 \/ mode = 3 \/ mode = 4 \/ mode = 5 \/ mode = 6
          \/ mode = 7 \/ mode = 8 \/ mode = 9 \/ mode = 10 \/ mode = 11
          \/ mode = 12 \/ mode = 13 \/ mode = 14) as Hcases by lia.
  repeat (destruct Hcases as [->|Hcases];
          [first [reflexivity | discriminate Hfree]|]).
  subst mode. reflexivity.
Qed.

(* ===================================================================== *)
(** ** A decoder exists; the verifier does not use one *)
(* ===================================================================== *)

Lemma index_from_absent (c : byte) (l : list byte) (i : Z) :
  ~ In c l -> index_from c l i = None.
Proof.
  revert i. induction l as [|x l IH]; intros i Hnot; [reflexivity|].
  cbn [index_from]. destruct (Byte.eqb x c) eqn:E.
  - apply Byte.byte_dec_bl in E. exfalso. apply Hnot. left. exact E.
  - apply IH. intros HIn. apply Hnot. right. exact HIn.
Qed.

Lemma atoi64_foreign (c : byte) : foreign c -> atoi64 c = None.
Proof. apply index_from_absent. Qed.

Lemma atoi64_itoa64 (i : Z) : 0 <= i < 64 -> atoi64 (itoa64_at i) = Some i.
Proof.
  intros Hi.
  assert (exists n, (n < 64)%nat /\ i = Z.of_nat n) as (n & Hn & ->)
    by (exists (Z.to_nat i); lia).
  do 64 (destruct n as [|n]; [reflexivity|]). lia.
Qed.

Lemma atoi64_symbol (v k : Z) : atoi64 (symbol v k) = Some (digit v k).
Proof. apply atoi64_itoa64, digit_range. Qed.

Lemma byte_of_Z_uint (b : byte) : byte_of_Z (uint b) = b.
Proof.
  unfold byte_of_Z. pose proof (uint_range b).
  rewrite Z.mod_small by assumption. unfold uint.
  rewrite N2Z.id, Byte.of_to_N. reflexivity.
Qed.

Lemma decode64_encode64Bytes (x : list byte) : decode64 (encode64Bytes x) = Some x.
Proof.
  induction x as [|b0|b0 b1|b0 b1 b2 rest IH] using bytes_ind3.
  - reflexivity.
  - rewrite encode64Bytes_one. cbn [decode64]. rewrite !atoi64_symbol.
    rewrite digit_0, digit_1. pose proof (uint_range b0).
    replace (uint b0 mod 64 + 64 * (uint b0 / 64 mod 64)) with (uint b0)
      by (Z.div_mod_to_equations; lia).
    rewrite byte_of_Z_uint. reflexivity.
  - rewrite encode64Bytes_two. cbv zeta. cbn [decode64]. rewrite !atoi64_symbol.
    rewrite digit_0, digit_1, digit_2, pack2_sum.
    pose proof (uint_range b0). pose proof (uint_range b1).
    set (v := uint b0 + uint b1 * 256).
    replace (v mod 64 + 64 * (v / 64 mod 64) + 4096 * (v / 4096 mod 64)) with v
      by (unfold v; Z.div_mod_to_equations; lia).
    cbv zeta.
    replace (byte_of_Z v) with (byte_of_Z (uint b0)).
    2:{ unfold byte_of_Z. do 3 f_equal. unfold v. Z.div_mod_to_equations. lia. }
    replace (v / 256) with (uint b1) by (unfold v; Z.div_mod_to_equations; lia).
    rewrite !byte_of_Z_uint. reflexivity.
  - rewrite encode64Bytes_cons3. cbv zeta. cbn [app decode64].
    rewrite !atoi64_symbol, IH.
    rewrite digit_0, digit_1, digit_2, digit_3, pack3_sum.
    pose proof (uint_range b0). pose proof (uint_range b1). pose proof (uint_range b2).
    set (v := uint b0 + uint b1 * 256 + uint b2 * 65536).
    replace (v mod 64 + 64 * (v / 64 mod 64) + 4096 * (v / 4096 mod 64)
             + 262144 * (v / 262144 mod 64)) with v
      by (unfold v; Z.div_mod_to_equations; lia).
    cbv zeta.
    replace (byte_of_Z v) with (byte_of_Z (uint b0)).
    2:{ unfold byte_of_Z. do 3 f_equal. unfold v. Z.div_mod_to_equations. lia. }
    replace (byte_of_Z (v / 256)) with (byte_of_Z (uint b1)).
    2:{ unfold byte_of_Z. do 3 f_equal. unfold v. Z.div_mod_to_equations. lia. }
    replace (v / 65536) with (uint b2) by (unfold v; Z.div_mod_to_equations; lia).
    rewrite !byte_of_Z_uint. reflexivity.
Qed.

Lemma decode64_foreign (s : list byte) (c : byte) :
  In c s -> foreign c -> decode64 s = None.
Proof.
  intros HIn Hc. apply atoi64_foreign in Hc.
  induction s as [s IH] using (induction_ltof1 _ (@length byte)).
  destruct s as [|c0 [|c1 [|c2 [|c3 rest]]]]; cbn [decode64].
  - destruct HIn.
  - reflexivity.
  - destruct HIn as [->|[->|[]]]; rewrite Hc;
      try reflexivity; destruct (atoi64 c0); reflexivity.
  - destruct HIn as [->|[->|[->|[]]]]; rewrite Hc; try reflexivity;
      destruct (atoi64 c0); try reflexivity;
      destruct (atoi64 c1); reflexivity.
  - destruct HIn as [->|[->|[->|[->|HIn]]]].
    + rewrite Hc. reflexivity.
    + rewrite Hc. destruct (atoi64 c0); reflexivity.
    + rewrite Hc. destruct (atoi64 c0), (atoi64 c1); reflexivity.
    + rewrite Hc. destruct (atoi64 c0), (atoi64 c1), (atoi64 c2); reflexivity.
    + rewrite (IH rest); [|unfold ltof; simpl; lia|exact HIn].
      destruct (atoi64 c0), (atoi64 c1), (atoi64 c2), (atoi64 c3); reflexivity.
Qed.

Section Verifier.
Context `{Primitives}.

(** The key field is compared with an encoding, so a character outside the
    alphabet in it makes the verification fail. *)
Lemma verifySCrypt_foreign_key (storedHash password expected : list byte) (c : byte) :
  slice storedHash (strings_LastIndex storedHash dollar + 1) (len storedHash)
  = Some expected ->
  In c expected -> foreign c ->
  verifySCrypt storedHash password <> Returns true.
Proof.
  intros Hkey HIn Hc. unfold verifySCrypt.
  destruct (len storedHash <? 14); [discriminate|].
  destruct (slice storedHash 0 3) as [prefix|]; [|discriminate].
  destruct (negb (bytes_eqb prefix (str "$7$"))); [discriminate|].
  destruct (strings_LastIndex storedHash dollar <=? 3); [discriminate|].
  destruct (slice storedHash 14 (strings_LastIndex storedHash dollar)) as [salt|];
    [|discriminate].
  rewrite Hkey.
  destruct (scrypt_Key password salt 16384 8 1 32) as [dk|]; [|discriminate].
  intros E. injection E as E. apply bytes_eqb_eq in E. subst expected.
  exact (encode64Bytes_no_foreign dk c Hc HIn).
Qed.

(** The salt field is not looked at: whatever its characters, the string
    verifies when its key field is the encoding of the key derived from it. *)
Lemma verifySCrypt_any_salt (params salt password dk : list byte) :
  length params = 11%nat ->
  scrypt_Key password salt 16384 8 1 32 = Some dk ->
  verifySCrypt (str "$7$" ++ params ++ salt ++ dollar :: encode64Bytes dk) password
  = Returns true.
Proof.
  intros Hparams Hdk. rewrite verifySCrypt_mcf.
  - rewrite Hdk, bytes_eqb_refl. reflexivity.
  - exact Hparams.
  - apply encode64Bytes_no_foreign, dollar_foreign.
Qed.

End Verifier.

(** C6.  The decode operation of the escrypt codec is the inverse of the
    encoding of [main.go]: decoding the encoding of a byte sequence gives the
    sequence back, for every sequence (of length 0, 1, 2, 3, 4, 31, 32 or any
    other), and decoding rejects every string that has a character outside
    the 64-symbol alphabet. *)
Theorem decode64_inverts_encode64Bytes :
  (forall x : list byte, decode64 (encode64Bytes x) = Some x)
  /\ (forall (s : list byte) (c : byte),
         In c s -> ~ In c itoa64 -> decode64 s = None).
Proof.
  split; [exact decode64_encode64Bytes|exact decode64_foreign].
Qed.

Example decode64_round_trips :
  map (fun x => decode64 (encode64Bytes x))
    [str ""; str "a"; str "ab"; str "abc"; str "abcd";
     str "0123456789abcdefghijklmnopqrstu"; str "0123456789abcdefghijklmnopqrstuv"]
  = map Some
      [str ""; str "a"; str "ab"; str "abc"; str "abcd";
       str "0123456789abcdefghijklmnopqrstu"; str "0123456789abcdefghijklmnopqrstuv"].
Proof. vm_compute. reflexivity. Qed.

(* ===================================================================== *)
(** ** More on the codec: what [encode64Uint32] keeps of a value *)
(* ===================================================================== *)

Lemma symbols_of_eq_iff (n : nat) :
  forall v w : Z,
    symbols_of v n = symbols_of w n <-> v mod 64 ^ Z.of_nat n = w mod 64 ^ Z.of_nat n.
Proof.
  induction n as [|n IH]; intros v w.
  - change (64 ^ Z.of_nat 0) with 1. rewrite !Z.mod_1_r. split; reflexivity.
  - rewrite !symbols_of_S.
    replace (64 ^ Z.of_nat (S n)) with (64 * 64 ^ Z.of_nat n)
      by (rewrite Nat2Z.inj_succ, Z.pow_succ_r by lia; reflexivity).
    assert (0 < 64 ^ Z.of_nat n) as Hpos by (apply Z.pow_pos_nonneg; lia).
    rewrite !Z.rem_mul_r by lia.
    rewrite !Z.shiftr_div_pow2 by lia. change (2 ^ 6) with 64.
    specialize (IH (v / 64) (w / 64)).
    pose proof (Z.mod_pos_bound v 64 ltac:(lia)) as Hv.
    pose proof (Z.mod_pos_bound w 64 ltac:(lia)) as Hw.
    split.
    + intros E. injection E as E0 E. apply symbol_inj in E0.
      rewrite !digit_0 in E0. apply IH in E. lia.
    + intros E.
      assert (v mod 64 = w mod 64
              /\ (v / 64) mod 64 ^ Z.of_nat n = (w / 64) mod 64 ^ Z.of_nat n)
        as [E0 E1].
      { pose proof (Z.mod_pos_bound (v / 64) (64 ^ Z.of_nat n) Hpos).
        pose proof (Z.mod_pos_bound (w / 64) (64 ^ Z.of_nat n) Hpos).
        split; nia. }
      f_equal.
      * unfold symbol. rewrite !digit_0. congruence.
      * apply IH, E1.
Qed.

(** X1.  [encode64Uint32] keeps the low [6 * ceil(bits / 6)] bits of the
    value and nothing else: two values have the same encoding exactly when
    they agree modulo [64 ^ ceil(bits / 6)]. *)
Theorem encode64Uint32_keeps_low_bits (v w bits : Z) :
  0 <= bits < 2 ^ 63 - 6 ->
  encode64Uint32 v bits = encode64Uint32 w bits
  <-> v mod 64 ^ ((bits + 5) / 6) = w mod 64 ^ ((bits + 5) / 6).
Proof.
  intros Hbits. rewrite !encode64Uint32_symbols by lia.
  rewrite symbols_of_eq_iff.
  rewrite Z2Nat.id by (Z.div_mod_to_equations; lia). reflexivity.
Qed.

Lemma encode64Uint32_keeps_low_bits_witness :
  0 <= 30 < 2 ^ 63 - 6
  /\ encode64Uint32 (2 ^ 30 + 8) 30 = encode64Uint32 8 30.
Proof.
  split; [lia|].
  apply (encode64Uint32_keeps_low_bits (2 ^ 30 + 8) 8 30); [lia|reflexivity].
Defined.

(* ===================================================================== *)
(** ** More on the verifier: what it accepts *)
(* ===================================================================== *)

(** Where the scan stops: at what it was given, the separator being absent,
    or at the last separator. *)
Lemma LastIndex_scan_split (s : list byte) (sep : byte) :
  forall i found : Z,
    (LastIndex_scan s sep i found = found /\ ~ In sep s)
    \/ exists a b, s = a ++ sep :: b
                   /\ LastIndex_scan s sep i found = i + len a
                   /\ ~ In sep b.
Proof.
  induction s as [|c s IH]; intros i found.
  - left. split; [reflexivity|intros []].
  - cbn [LastIndex_scan].
    destruct (IH (i + 1) (if Byte.eqb c sep then i else found))
      as [[E Hnot]|(a & b & -> & E & Hnot)].
    + rewrite E. destruct (Byte.eqb c sep) eqn:Ec.
      * apply Byte.byte_dec_bl in Ec. subst c. right.
        exists [], s. rewrite len_nil. repeat split; [lia|exact Hnot].
      * left. split; [reflexivity|]. intros [->|HIn]; [|contradiction].
        rewrite Byte.byte_dec_lb in Ec by reflexivity. discriminate Ec.
    + right. exists (c :: a), b. rewrite E, len_cons.
      repeat split; [lia|exact Hnot].
Qed.

Lemma strings_LastIndex_split (s : list byte) (sep : byte) :
  0 <= strings_LastIndex s sep ->
  exists a b, s = a ++ sep :: b
              /\ strings_LastIndex s sep = len a
              /\ ~ In sep b.
Proof.
  unfold strings_LastIndex. intros Hfound.
  destruct (LastIndex_scan_split s sep 0 (-1)) as [[E _]|(a & b & Hs & E & Hnot)].
  - lia.
  - exists a, b. repeat split; [exact Hs|lia|exact Hnot].
Qed.

(** A string long enough is its first three characters, the next eleven
    and the rest. *)
Lemma head_3_11 (a : list byte) :
  14 <= len a ->
  exists prefix params salt,
    a = prefix ++ params ++ salt
    /\ length prefix = 3%nat /\ length params = 11%nat.
Proof.
  intros Hlen. unfold len in Hlen.
  exists (firstn 3 a), (firstn 11 (skipn 3 a)), (skipn 11 (skipn 3 a)).
  rewrite !firstn_skipn. rewrite !length_take, length_drop.
  repeat split; lia.
Qed.

Section Acceptance.
Context `{Primitives}.

(** What [verifySCrypt] accepts, exactly: the strings made of ["$7$"],
    eleven characters of any kind, a salt of any kind, ['$'], and the
    encoding of the key that [scrypt.Key] derives from the password and that
    salt. *)
Lemma verifySCrypt_true_iff (storedHash password : list byte) :
  verifySCrypt storedHash password = Returns true
  <-> exists params salt dk,
        length params = 11%nat
        /\ storedHash = str "$7$" ++ params ++ salt ++ dollar :: encode64Bytes dk
        /\ scrypt_Key password salt 16384 8 1 32 = Some dk.
Proof.
  split.
  2:{ intros (params & salt & dk & Hparams & -> & Hdk).
      apply verifySCrypt_any_salt; assumption. }
  intros Htrue.
  destruct (Z.lt_ge_cases (len storedHash) 14) as [Hshort|Hlong].
  { rewrite verifySCrypt_short in Htrue by exact Hshort. discriminate Htrue. }
  destruct (Z.le_gt_cases (strings_LastIndex storedHash dollar) 3) as [Hle|Hgt].
  { rewrite verifySCrypt_no_separator in Htrue by exact Hle. discriminate Htrue. }
  destruct (strings_LastIndex_split storedHash dollar) as (a & key & Hs & Hlast & Hkey);
    [lia|].
  destruct (Z.lt_ge_cases (len a) 14) as [Hin|Hout].
  { exfalso. revert Htrue. unfold verifySCrypt.
    destruct (len storedHash <? 14); [discriminate|].
    destruct (slice storedHash 0 3) as [prefix|]; [|discriminate].
    destruct (negb (bytes_eqb prefix (str "$7$"))); [discriminate|].
    destruct (strings_LastIndex storedHash dollar <=? 3); [discriminate|].
    rewrite slice_panics by lia. discriminate. }
  destruct (head_3_11 a Hout) as (prefix & params & salt & -> & Hprefix & Hparams).
  assert (prefix = str "$7$") as ->.
  { destruct (bytes_eqb prefix (str "$7$")) eqn:E;
      [apply bytes_eqb_eq, E|].
    rewrite verifySCrypt_no_prefix in Htrue; [discriminate Htrue|].
    subst storedHash. rewrite <- !app_assoc.
    rewrite <- Hprefix, take_app_length. intros E'.
    rewrite E', bytes_eqb_refl in E. discriminate E. }
  subst storedHash. rewrite <- !app_assoc in Htrue.
  rewrite verifySCrypt_mcf in Htrue by assumption.
  destruct (scrypt_Key password salt 16384 8 1 32) as [dk|] eqn:Hdk;
    [|discriminate Htrue].
  injection Htrue as E. apply bytes_eqb_eq in E. subst key.
  exists params, salt, dk. rewrite <- !app_assoc. auto.
Qed.

End Acceptance.

(** X2.  [verifySCrypt] returns true exactly on the strings made of ["$7$"],
    eleven characters of any kind, a salt of any kind, ['$'] and the escrypt
    encoding of the key that [scrypt.Key] derives, with [N = 16384], [r = 8],
    [p = 1] and 32 bytes, from the password and the bytes of that salt. *)
Theorem verifySCrypt_accepts_exactly (P : Primitives) (storedHash password : list byte) :
  @verifySCrypt P storedHash password = Returns true
  <-> exists params salt dk,
        length params = 11%nat
        /\ storedHash = str "$7$" ++ params ++ salt ++ str "$" ++ encode64Bytes dk
        /\ @scrypt_Key P password salt 16384 8 1 32 = Some dk.
Proof. apply @verifySCrypt_true_iff. Qed.

(** X3.  On a hash that mode 14 returned for a password, [verifySCrypt]
    never panics, and it accepts a candidate password exactly when
    [scrypt.Key] gives for it, under the salt of the hash, what it gave for
    the password. *)
Theorem verifySCrypt_generated_exact (P : Primitives)
  (username password candidate : list byte) (rng rng' : entropy) (h : list byte) :
  @eqcryptHash P username password 14 rng = (Ok h, rng') ->
  let encodedSalt := encode64Bytes (firstn 32 rng) in
  exists b : bool,
    @verifySCrypt P h candidate = Returns b
    /\ (b = true
        <-> @scrypt_Key P candidate encodedSalt 16384 8 1 32
            = @scrypt_Key P password encodedSalt 16384 8 1 32).
Proof.
  change (@eqcryptHash P username password 14 rng) with (@hashSCrypt P password rng).
  intros Hhash encodedSalt.
  destruct (Nat.le_gt_cases 32 (length rng)) as [Hrng|Hrng].
  2:{ rewrite hashSCrypt_no_entropy in Hhash by exact Hrng. discriminate Hhash. }
  rewrite hashSCrypt_run in Hhash by exact Hrng. fold encodedSalt in Hhash.
  destruct (@scrypt_Key P password encodedSalt 16384 8 1 32) as [dk|] eqn:Hdk;
    [|discriminate Hhash].
  change (str "$" ++ encode64Bytes dk) with (dollar :: encode64Bytes dk) in Hhash.
  assert (h = str "$7$" ++ scrypt_params ++ encodedSalt ++ dollar :: encode64Bytes dk)
    as -> by congruence.
  rewrite verifySCrypt_mcf;
    [|reflexivity|apply encode64Bytes_no_foreign, dollar_foreign].
  destruct (@scrypt_Key P candidate encodedSalt 16384 8 1 32) as [dk'|].
  - eexists. split; [reflexivity|].
    rewrite bytes_eqb_eq. split.
    + intros E. apply encode64Bytes_inj in E. congruence.
    + intros E. congruence.
  - exists false. split; [reflexivity|]. split; discriminate.
Qed.

Lemma verifySCrypt_generated_exact_witness :
  exists b : bool,
    @verifySCrypt test_primitives
      (str "$7$C6..../....k2XAnEHBqQ1Ct2aMXFKNaR4OddqOgpaPj/LQmB5RpN5$kRrOmUJEiJ2G03LIlA2Rm2KHMNoGC3aIow2NY3rHb/5")
      (str "wrong") = Returns b
    /\ (b = true
        <-> @scrypt_Key test_primitives (str "wrong")
              (encode64Bytes (firstn 32 (str "0123456789abcdefghijklmnopqrstuv")))
              16384 8 1 32
            = @scrypt_Key test_primitives (str "pw")
                (encode64Bytes (firstn 32 (str "0123456789abcdefghijklmnopqrstuv")))
                16384 8 1 32).
Proof.
  apply (verifySCrypt_generated_exact test_primitives (str "tester") (str "pw")
           (str "wrong") (str "0123456789abcdefghijklmnopqrstuv") []).
  vm_compute. reflexivity.
Defined.

Section Tampering.
Context `{Primitives}.

Lemma derived_key_length (password salt dk : list byte) :
  scrypt_Key_interactive ->
  scrypt_Key password salt 16384 8 1 32 = Some dk -> length dk = 32%nat.
Proof.
  intros Hkdf Hdk. destruct (Hkdf password salt) as (dk' & Hdk' & Hlen).
  congruence.
Qed.

Lemma verifySCrypt_tampered (params salt key password : list byte) :
  scrypt_Key_interactive ->
  length params = 11%nat ->
  (length key <= 43)%nat ->
  (forall dk, scrypt_Key password salt 16384 8 1 32 = Some dk ->
              key <> encode64Bytes dk) ->
  verifySCrypt (str "$7$" ++ params ++ salt ++ dollar :: key) password
  = Returns false.
Proof.
  intros Hkdf Hparams Hlen Hne.
  destruct (LastIndex_scan_split key dollar 0 (-1))
    as [[_ Hnot]|(a & b & -> & _ & Hnot)].
  - rewrite verifySCrypt_mcf by assumption.
    destruct (scrypt_Key password salt 16384 8 1 32) as [dk|] eqn:Hdk;
      [|reflexivity].
    destruct (bytes_eqb (encode64Bytes dk) key) eqn:E; [|reflexivity].
    apply bytes_eqb_eq in E. exfalso. apply (Hne dk); congruence.
  - replace (str "$7$" ++ params ++ salt ++ dollar :: a ++ dollar :: b)
      with (str "$7$" ++ params ++ (salt ++ dollar :: a) ++ dollar :: b)
      by (rewrite <- !app_assoc; reflexivity).
    rewrite verifySCrypt_mcf by assumption.
    destruct (scrypt_Key password (salt ++ dollar :: a) 16384 8 1 32) as [dk|] eqn:Hdk;
      [|reflexivity].
    destruct (bytes_eqb (encode64Bytes dk) b) eqn:E; [|reflexivity].
    apply bytes_eqb_eq in E. exfalso.
    apply (f_equal (@length byte)) in E.
    rewrite encode64Bytes_length, (derived_key_length _ _ _ Hkdf Hdk) in E.
    rewrite length_app in Hlen. cbn [length] in Hlen.
    change (encoded_length 32) with 43%nat in E. lia.
Qed.

End Tampering.

(** X4.  A stored hash whose key field, of at most 43 characters, is not the
    encoding of the derived key is refused with false (no panic), also when
    the altered characters include ['$']: one changed character after the
    last ['$'] of a valid hash is enough. *)
Theorem verifySCrypt_rejects_tampered_key (P : Primitives)
  (params salt key password : list byte) :
  @scrypt_Key_interactive P ->
  length params = 11%nat ->
  (length key <= 43)%nat ->
  (forall dk, @scrypt_Key P password salt 16384 8 1 32 = Some dk ->
              key <> encode64Bytes dk) ->
  @verifySCrypt P (str "$7$" ++ params ++ salt ++ str "$" ++ key) password
  = Returns false.
Proof. apply @verifySCrypt_tampered. Qed.

Lemma verifySCrypt_rejects_tampered_key_witness :
  @verifySCrypt test_primitives
    (str "$7$" ++ str "C6..../...."
       ++ str "k2XAnEHBqQ1Ct2aMXFKNaR4OddqOgpaPj/LQmB5RpN5" ++ str "$"
       ++ str "kRrOmUJEiJ2G03LIlA2Rm2KHMNoGC$aIow2NY3rHb/5")
    (str "pw")
  = Returns false.
Proof.
  apply (verifySCrypt_rejects_tampered_key test_primitives).
  - exact test_primitives_interactive.
  - reflexivity.
  - vm_compute. lia.
  - intros dk Hdk E. vm_compute in Hdk. injection Hdk as <-.
    vm_compute in E. discriminate E.
Defined.

(** A string in which a character occurs splits at its last occurrence. *)
Lemma In_last_split (s : list byte) (sep : byte) :
  In sep s -> exists a b, s = a ++ sep :: b /\ ~ In sep b.
Proof.
  intros Hin.
  destruct (LastIndex_scan_split s sep 0 (-1)) as [[_ Hnot]|(a & b & Hs & _ & Hnot)].
  - contradiction.
  - exists a, b. split; [exact Hs|exact Hnot].
Qed.

(** X5.  The eleven characters at indices 3 to 13, where an scrypt hash
    records [log2 N], [r] and [p], are not read when a ['$'] stands at index
    14 or later: two stored strings that differ only in those eleven
    characters and have such a ['$'] get the same outcome, so a hash made
    with other cost parameters is checked with [N = 16384], [r = 8], [p = 1]
    all the same. *)
Theorem verifySCrypt_ignores_parameters (P : Primitives)
  (prefix params1 params2 rest password : list byte) :
  length prefix = 3%nat ->
  length params1 = 11%nat ->
  length params2 = 11%nat ->
  In dollar rest ->
  @verifySCrypt P (prefix ++ params1 ++ rest) password
  = @verifySCrypt P (prefix ++ params2 ++ rest) password.
Proof.
  intros Hprefix H1 H2 Hrest.
  destruct (bytes_eqb prefix (str "$7$")) eqn:E.
  - apply bytes_eqb_eq in E. subst prefix.
    destruct (In_last_split rest dollar Hrest) as (salt & key & -> & Hkey).
    rewrite !verifySCrypt_mcf by assumption. reflexivity.
  - assert (prefix <> str "$7$") as Hne
      by (intros ->; rewrite bytes_eqb_refl in E; discriminate E).
    rewrite !verifySCrypt_no_prefix; [reflexivity| |].
    + rewrite <- Hprefix, take_app_length. exact Hne.
    + rewrite <- Hprefix, take_app_length. exact Hne.
Qed.

Lemma verifySCrypt_ignores_parameters_witness :
  @verifySCrypt test_primitives
    (str "$7$" ++ str "C6..../...." ++ str "salt$key") (str "pw")
  = @verifySCrypt test_primitives
      (str "$7$" ++ str "F$....0...." ++ str "salt$key") (str "pw").
Proof.
  apply (verifySCrypt_ignores_parameters test_primitives);
    [reflexivity|reflexivity|reflexivity|].
  vm_compute. right. right. right. right. left. reflexivity.
Defined.

(** Without a ['$'] at index 14 or later the eleven characters do count: a
    ['$'] among them turns the answer [false] into a panic. *)
Example verifySCrypt_parameters_dollar :
  @verifySCrypt test_primitives (str "$7$aaaa$aaaaaaaaaaa") (str "pw") = Panics
  /\ @verifySCrypt test_primitives (str "$7$aaaaaaaaaaaaaaaa") (str "pw")
     = Returns false.
Proof.
  split; vm_compute; reflexivity.
Qed.

(** X6.  Mode 14 returns a hash exactly when the random source delivers 32
    bytes and [scrypt.Key] succeeds on the encoded salt; a call that returns
    a hash has consumed exactly those 32 bytes, and a call in which
    [scrypt.Key] fails returns its error after the 32 bytes are consumed.
    Mode 13 returns a hash exactly when the random source delivers 16 bytes,
    and has then consumed exactly those 16 bytes. *)
Theorem kdf_modes_outcome (P : Primitives) (username password : list byte) (rng : entropy) :
  ((exists h rng', @eqcryptHash P username password 14 rng = (Ok h, rng'))
   <-> (32 <= length rng)%nat
       /\ @scrypt_Key P password (encode64Bytes (firstn 32 rng)) 16384 8 1 32 <> None)
  /\ (forall h rng', @eqcryptHash P username password 14 rng = (Ok h, rng') ->
                     rng' = skipn 32 rng)
  /\ ((32 <= length rng)%nat ->
      @scrypt_Key P password (encode64Bytes (firstn 32 rng)) 16384 8 1 32 = None ->
      @eqcryptHash P username password 14 rng = (Err ScryptError, skipn 32 rng))
  /\ ((exists h rng', @eqcryptHash P username password 13 rng = (Ok h, rng'))
      <-> (16 <= length rng)%nat)
  /\ (forall h rng', @eqcryptHash P username password 13 rng = (Ok h, rng') ->
                     rng' = skipn 16 rng).
Proof.
  change (@eqcryptHash P username password 14 rng) with (@hashSCrypt P password rng).
  change (@eqcryptHash P username password 13 rng) with (@hashArgon2 P password rng).
  split; [|split; [|split; [|split]]].
  - split.
    + intros (h & rng' & Hhash).
      destruct (Nat.le_gt_cases 32 (length rng)) as [Hrng|Hrng].
      * split; [exact Hrng|]. rewrite hashSCrypt_run in Hhash by exact Hrng.
        intros Hnone. rewrite Hnone in Hhash. discriminate Hhash.
      * rewrite hashSCrypt_no_entropy in Hhash by exact Hrng. discriminate Hhash.
    + intros [Hrng Hsome]. rewrite hashSCrypt_run by exact Hrng.
      destruct (@scrypt_Key P password (encode64Bytes (firstn 32 rng)) 16384 8 1 32);
        [|contradiction]. eauto.
  - intros h rng' Hhash.
    destruct (Nat.le_gt_cases 32 (length rng)) as [Hrng|Hrng].
    + rewrite hashSCrypt_run in Hhash by exact Hrng.
      symmetry. exact (f_equal snd Hhash).
    + rewrite hashSCrypt_no_entropy in Hhash by exact Hrng. discriminate Hhash.
  - intros Hrng Hnone. rewrite hashSCrypt_run by exact Hrng. rewrite Hnone.
    reflexivity.
  - split.
    + intros (h & rng' & Hhash).
      destruct (Nat.le_gt_cases 16 (length rng)) as [Hrng|Hrng]; [exact Hrng|].
      rewrite hashArgon2_no_entropy in Hhash by exact Hrng. discriminate Hhash.
    + intros Hrng. rewrite hashArgon2_run by exact Hrng. eauto.
  - intros h rng' Hhash.
    destruct (Nat.le_gt_cases 16 (length rng)) as [Hrng|Hrng].
    + rewrite hashArgon2_run in Hhash by exact Hrng.
      symmetry. exact (f_equal snd Hhash).
    + rewrite hashArgon2_no_entropy in Hhash by exact Hrng. discriminate Hhash.
Qed.

(* ===================================================================== *)
(** ** More on the legacy modes *)
(* ===================================================================== *)

(** X7.  With digests of 16, 20 and 64 bytes, the hash of a mode from 1 to 4
    has 32 characters, of a mode from 5 to 8 has 40 and of a mode from 9 to
    12 has 128, whatever the username and the password. *)
Theorem legacy_hash_lengths (P : Primitives)
  (username password : list byte) (mode : Z) (rng rng' : entropy) (h : list byte) :
  @digest_sizes P ->
  1 <= mode <= 12 ->
  @eqcryptHash P username password mode rng = (Ok h, rng') ->
  length h = (if mode <=? 4 then 32%nat else if mode <=? 8 then 40%nat else 128%nat).
Proof.
  intros (Hmd5 & Hsha1 & Hsha512) Hmode Hhash.
  rewrite eqcryptHash_legacy in Hhash by exact Hmode.
  assert (h = @legacy_table P mode username password) as ->
    by (unfold ret in Hhash; congruence).
  clear Hhash.
  assert (forall s, length (Sprintf_x (@table_digest P mode s))
                    = (if mode <=? 4 then 32%nat else if mode <=? 8 then 40%nat else 128%nat))
    as Hlen.
  { intros s. rewrite Sprintf_x_length. unfold table_digest.
    destruct (mode <=? 4); [rewrite Hmd5; reflexivity|].
    destruct (mode <=? 8); [rewrite Hsha1|rewrite Hsha512]; reflexivity. }
  unfold legacy_table.
  repeat match goal with
         | |- context [match ?x with _ => _ end] => destruct x
         end; apply Hlen.
Qed.

Lemma test_primitives_sizes : @digest_sizes test_primitives.
Proof. repeat split; intros s; apply test_digest_length. Qed.

Lemma legacy_hash_lengths_witness :
  length (str "7465737465723a68756e74657232000000000000") = 40%nat.
Proof.
  apply (legacy_hash_lengths test_primitives (str "tester") (str "hunter2") 7 [] []).
  - exact test_primitives_sizes.
  - lia.
  - vm_compute. reflexivity.
Defined.

(** X8.  The modes that join the password and the username with [":"] do
    not tell where one ends and the other begins: moving a part of the
    password that follows a colon to the front of the username (modes 2, 6,
    10), or a part of the username that follows a colon to the front of the
    password (modes 3, 7, 11), gives the same hash. *)
Theorem colon_modes_ambiguous (P : Primitives) (a b c : list byte) (rng : entropy) :
  (forall mode, In mode [2; 6; 10] ->
      @eqcryptHash P c (a ++ str ":" ++ b) mode rng
      = @eqcryptHash P (b ++ str ":" ++ c) a mode rng)
  /\ (forall mode, In mode [3; 7; 11] ->
        @eqcryptHash P (a ++ str ":" ++ b) c mode rng
        = @eqcryptHash P a (b ++ str ":" ++ c) mode rng).
Proof.
  split; intros mode Hmode; cbn [In] in Hmode;
    repeat (destruct Hmode as [<-|Hmode];
            [cbn [eqcryptHash]; rewrite <- !app_assoc; reflexivity|]);
    destruct Hmode.
Qed.

(* ===================================================================== *)
(** ** The mode selection: parsing the option text *)
(* ===================================================================== *)

Lemma uint_value_pos (d : Decimal.uint) :
  forall acc : positive, uint_value d (Zpos acc) = Zpos (Pos.of_uint_acc d acc).
Proof.
  induction d as [|d IH|d IH|d IH|d IH|d IH|d IH|d IH|d IH|d IH|d IH];
    intros acc; cbn [uint_value Pos.of_uint_acc]; [reflexivity|..];
    rewrite <- IH; f_equal; lia.
Qed.

Lemma uint_value_0 (d : Decimal.uint) : uint_value d 0 = Z.of_N (Pos.of_uint d).
Proof.
  induction d as [|d IH|d IH|d IH|d IH|d IH|d IH|d IH|d IH|d IH|d IH];
    cbn [uint_value Pos.of_uint]; [reflexivity|exact IH|..];
    cbn [Z.mul Z.add Z.of_N]; apply uint_value_pos.
Qed.

Lemma uint_value_to_uint (p : positive) : uint_value (Pos.to_uint p) 0 = Zpos p.
Proof. rewrite uint_value_0, DecimalPos.Unsigned.of_to. reflexivity. Qed.

(** The text of a decimal number: digits only, which read back as its
    value. *)
Lemma uint_text (d : Decimal.uint) :
  forallb is_digit (String.list_byte_of_string (DecimalString.NilEmpty.string_of_uint d))
  = true
  /\ forall acc,
      parse_digits
        (String.list_byte_of_string (DecimalString.NilEmpty.string_of_uint d)) acc
      = Some (uint_value d acc).
Proof.
  induction d as [|d [IHd IHp]|d [IHd IHp]|d [IHd IHp]|d [IHd IHp]|d [IHd IHp]
                  |d [IHd IHp]|d [IHd IHp]|d [IHd IHp]|d [IHd IHp]|d [IHd IHp]];
    cbn [DecimalString.NilEmpty.string_of_uint uint_value].
  1:{ split; [reflexivity|intros acc; reflexivity]. }
  all: match goal with
       | |- context [String.String ?a ?s] =>
           change (String.list_byte_of_string (String.String a s))
             with (Ascii.byte_of_ascii a :: String.list_byte_of_string s)
       end.
  all: split; [exact IHd|intros acc; apply IHp].
Qed.

Lemma uint_text_nonempty (d : Decimal.uint) :
  d <> Decimal.Nil ->
  String.list_byte_of_string (DecimalString.NilEmpty.string_of_uint d) <> [].
Proof. destruct d; [congruence|..]; intros _; discriminate. Qed.

Lemma NilZero_string_of_uint_nonnil (d : Decimal.uint) :
  d <> Decimal.Nil ->
  DecimalString.NilZero.string_of_uint d = DecimalString.NilEmpty.string_of_uint d.
Proof. destruct d; [congruence|..]; reflexivity. Qed.

(** What [%d] writes: a minus sign for a negative number, then at least one
    digit, the digits reading back as the absolute value. *)
Lemma Sprintf_d_shape (n : Z) :
  exists ds : list byte,
    ds <> [] /\ forallb is_digit ds = true
    /\ ((0 <= n /\ Sprintf_d n = ds /\ parse_digits ds 0 = Some n)
        \/ (n < 0 /\ Sprintf_d n = minus_sign :: ds /\ parse_digits ds 0 = Some (- n))).
Proof.
  destruct n as [|p|p].
  - exists (str "0"). split; [discriminate|]. split; [reflexivity|].
    left. repeat split. lia.
  - pose proof (DecimalPos.Unsigned.to_uint_nonnil p) as Hnil.
    destruct (uint_text (Pos.to_uint p)) as [Hdigits Hparse].
    eexists. split; [apply uint_text_nonempty, Hnil|]. split; [exact Hdigits|].
    left. split; [lia|]. split.
    + unfold Sprintf_d. cbn [Z.to_int DecimalString.NilZero.string_of_int].
      rewrite NilZero_string_of_uint_nonnil by exact Hnil. reflexivity.
    + rewrite Hparse, uint_value_to_uint. reflexivity.
  - pose proof (DecimalPos.Unsigned.to_uint_nonnil p) as Hnil.
    destruct (uint_text (Pos.to_uint p)) as [Hdigits Hparse].
    eexists. split; [apply uint_text_nonempty, Hnil|]. split; [exact Hdigits|].
    right. split; [lia|]. split.
    + unfold Sprintf_d. cbn [Z.to_int DecimalString.NilZero.string_of_int].
      rewrite NilZero_string_of_uint_nonnil by exact Hnil. reflexivity.
    + rewrite Hparse, uint_value_to_uint. reflexivity.
Qed.

Lemma is_digit_not_sign (c : byte) :
  is_digit c = true ->
  Byte.eqb c minus_sign = false /\ Byte.eqb c plus_sign = false /\ c <> space.
Proof.
  intros Hc. unfold is_digit in Hc. apply andb_true_iff in Hc as [Hlo Hhi].
  apply Z.leb_le in Hlo, Hhi.
  assert (forall k : byte, uint k < 48 -> Byte.eqb c k = false) as Hne.
  { intros k Hk. destruct (Byte.eqb c k) eqn:E; [|reflexivity].
    apply Byte.byte_dec_bl in E. subst k. lia. }
  repeat split.
  - apply Hne. vm_compute. reflexivity.
  - apply Hne. vm_compute. reflexivity.
  - intros ->. vm_compute in Hlo. apply Hlo. reflexivity.
Qed.

Lemma digits_no_space (ds : list byte) :
  forallb is_digit ds = true -> ~ In space ds.
Proof.
  intros Hds HIn. rewrite forallb_forall in Hds.
  destruct (is_digit_not_sign space (Hds space HIn)) as (_ & _ & Hne).
  apply Hne. reflexivity.
Qed.

Lemma strconv_Atoi_digits (ds : list byte) (n : Z) :
  ds <> [] -> forallb is_digit ds = true ->
  parse_digits ds 0 = Some n -> min_int <= n <= max_int ->
  strconv_Atoi ds = Some n.
Proof.
  intros Hne Hds Hparse Hrange. destruct ds as [|c ds]; [congruence|].
  cbn [forallb] in Hds. apply andb_true_iff in Hds as [Hc _].
  destruct (is_digit_not_sign c Hc) as (Hminus & Hplus & _).
  unfold strconv_Atoi. rewrite Hminus, Hplus. cbn [orb]. rewrite Hparse.
  destruct (Z.leb_spec min_int n); [|lia]. destruct (Z.leb_spec n max_int); [|lia].
  reflexivity.
Qed.

Lemma strconv_Atoi_minus (ds : list byte) (n : Z) :
  ds <> [] ->
  parse_digits ds 0 = Some n -> min_int <= - n <= max_int ->
  strconv_Atoi (minus_sign :: ds) = Some (- n).
Proof.
  intros Hne Hparse Hrange. unfold strconv_Atoi.
  rewrite Byte.byte_dec_lb by reflexivity. cbn [orb].
  destruct ds as [|c ds]; [congruence|]. rewrite Hparse.
  destruct (Z.leb_spec min_int (- n)); [|lia].
  destruct (Z.leb_spec (- n) max_int); [|lia]. reflexivity.
Qed.

(** [strconv.Atoi] reads back what [%d] writes, for every [int]. *)
Lemma strconv_Atoi_Sprintf_d (n : Z) :
  min_int <= n <= max_int -> strconv_Atoi (Sprintf_d n) = Some n.
Proof.
  intros Hrange.
  destruct (Sprintf_d_shape n) as (ds & Hne & Hds & [(Hn & -> & Hp)|(Hn & -> & Hp)]).
  - apply strconv_Atoi_digits; assumption.
  - rewrite (strconv_Atoi_minus ds (- n)); [f_equal; lia|assumption|assumption|lia].
Qed.

Lemma Sprintf_d_no_space (n : Z) : ~ In space (Sprintf_d n).
Proof.
  destruct (Sprintf_d_shape n) as (ds & _ & Hds & [(_ & -> & _)|(_ & -> & _)]).
  - apply digits_no_space, Hds.
  - intros [E|HIn]; [discriminate E|]. exact (digits_no_space ds Hds HIn).
Qed.

Lemma strings_SplitN2_first (w rest : list byte) (sep : byte) :
  ~ In sep w -> strings_SplitN2 (w ++ sep :: rest) sep = [w; rest].
Proof.
  induction w as [|c w IH]; intros Hnot; cbn [app strings_SplitN2].
  - rewrite Byte.byte_dec_lb by reflexivity. reflexivity.
  - destruct (Byte.eqb c sep) eqn:E.
    + apply Byte.byte_dec_bl in E. exfalso. apply Hnot. left. exact E.
    + rewrite IH; [reflexivity|]. intros HIn. apply Hnot. right. exact HIn.
Qed.

Lemma strings_SplitN2_whole (w : list byte) (sep : byte) :
  ~ In sep w -> strings_SplitN2 w sep = [w].
Proof.
  induction w as [|c w IH]; intros Hnot; cbn [strings_SplitN2]; [reflexivity|].
  destruct (Byte.eqb c sep) eqn:E.
  - apply Byte.byte_dec_bl in E. exfalso. apply Hnot. left. exact E.
  - rewrite IH; [reflexivity|]. intros HIn. apply Hnot. right. exact HIn.
Qed.

(** [strings.SplitN] never returns an empty list here, so the branch
    [len(parts) == 0] of [parseModeFromSelection] is never taken; the first
    part has no space. *)
Lemma strings_SplitN2_head (s : list byte) (sep : byte) :
  exists part0 others, strings_SplitN2 s sep = part0 :: others /\ ~ In sep part0.
Proof.
  induction s as [|c s (part0 & others & E & Hnot)]; cbn [strings_SplitN2].
  - exists [], []. split; [reflexivity|intros []].
  - destruct (Byte.eqb c sep) eqn:Ec.
    + exists [], [s]. split; [reflexivity|intros []].
    + rewrite E. exists (c :: part0), others. split; [reflexivity|].
      intros [<-|HIn]; [|contradiction].
      rewrite Byte.byte_dec_lb in Ec by reflexivity. discriminate Ec.
Qed.

(** X9.  The text of an option is read back as the mode it was written for:
    [parseModeFromSelection] of the decimal text of any [int], alone or
    followed by a space and any label, is that [int]. *)
Theorem parseModeFromSelection_reads_mode (n : Z) (label : list byte) :
  min_int <= n <= max_int ->
  parseModeFromSelection (Sprintf_d n ++ str " " ++ label) = n
  /\ parseModeFromSelection (Sprintf_d n) = n.
Proof.
  intros Hrange. unfold parseModeFromSelection.
  change (str " " ++ label) with (space :: label).
  rewrite strings_SplitN2_first, strings_SplitN2_whole by apply Sprintf_d_no_space.
  rewrite strconv_Atoi_Sprintf_d by exact Hrange. split; reflexivity.
Qed.

Lemma parseModeFromSelection_reads_mode_witness :
  min_int <= 14 <= max_int
  /\ parseModeFromSelection (str "14 - SCrypt") = 14.
Proof.
  split; [vm_compute; split; discriminate|].
  apply (parseModeFromSelection_reads_mode 14 (str "- SCrypt")).
  vm_compute. split; discriminate.
Defined.

Lemma strings_SplitN2_cases (s : list byte) (sep : byte) :
  (~ In sep s /\ strings_SplitN2 s sep = [s])
  \/ exists w r, s = w ++ sep :: r /\ ~ In sep w /\ strings_SplitN2 s sep = [w; r].
Proof.
  induction s as [|c s IH].
  - left. split; [intros []|reflexivity].
  - destruct (Byte.eqb c sep) eqn:Ec.
    + right. exists [], s. apply Byte.byte_dec_bl in Ec. subst c.
      repeat split; [intros []|].
      cbn [strings_SplitN2]. rewrite Byte.byte_dec_lb by reflexivity. reflexivity.
    + assert (c <> sep) as Hc.
      { intros ->. rewrite Byte.byte_dec_lb in Ec by reflexivity. discriminate Ec. }
      destruct IH as [[Hnot E]|(w & r & -> & Hnot & E)].
      * left. split; [intros [?|?]; congruence|].
        cbn [strings_SplitN2]. rewrite Ec, E. reflexivity.
      * right. exists (c :: w), r. repeat split.
        -- intros [?|?]; congruence.
        -- cbn [strings_SplitN2 app]. rewrite Ec, E. reflexivity.
Qed.

Lemma parse_digits_all_digits (ds : list byte) :
  forall acc n, parse_digits ds acc = Some n -> forallb is_digit ds = true.
Proof.
  induction ds as [|c ds IH]; intros acc n Hparse; [reflexivity|].
  cbn [parse_digits forallb] in *. destruct (is_digit c); [|discriminate Hparse].
  cbn [andb]. eapply IH, Hparse.
Qed.

Lemma strconv_Atoi_syntax (s : list byte) (m : Z) :
  strconv_Atoi s = Some m ->
  exists sign ds,
    s = sign ++ ds
    /\ (sign = [] \/ sign = [plus_sign] \/ sign = [minus_sign])
    /\ ds <> [] /\ forallb is_digit ds = true
    /\ min_int <= m <= max_int.
Proof.
  unfold strconv_Atoi. destruct s as [|c rest]; [discriminate|].
  set (digits := if Byte.eqb c minus_sign || Byte.eqb c plus_sign then rest else c :: rest).
  intros Hatoi.
  assert (exists sign, c :: rest = sign ++ digits
                       /\ (sign = [] \/ sign = [plus_sign] \/ sign = [minus_sign]))
    as (sign & Hs & Hsign).
  { unfold digits. destruct (Byte.eqb c minus_sign) eqn:Em.
    - apply Byte.byte_dec_bl in Em. subst c. exists [minus_sign]. auto.
    - destruct (Byte.eqb c plus_sign) eqn:Ep.
      + apply Byte.byte_dec_bl in Ep. subst c. exists [plus_sign]. auto.
      + exists []. auto. }
  exists sign, digits. split; [exact Hs|]. split; [exact Hsign|].
  destruct digits as [|d ds]; [discriminate Hatoi|].
  split; [discriminate|].
  destruct (parse_digits (d :: ds) 0) as [n|] eqn:Hparse; [|discriminate Hatoi].
  split; [eapply parse_digits_all_digits, Hparse|].
  destruct (Z.leb_spec min_int (if Byte.eqb c minus_sign then - n else n));
    [|discriminate Hatoi].
  destruct (Z.leb_spec (if Byte.eqb c minus_sign then - n else n) max_int);
    [|discriminate Hatoi].
  injection Hatoi as <-. lia.
Qed.

(** X10.  [parseModeFromSelection] returns 0 unless the selection begins
    with a decimal integer that ends the text or is followed by a space: an
    optional sign, at least one digit and nothing else before the first
    space.  What it returns is then an [int].  Nothing selected (the empty
    text), or a label without a number, is mode 0. *)
Theorem parseModeFromSelection_zero_unless_number (sel : list byte) :
  parseModeFromSelection sel <> 0 ->
  exists sign ds rest,
    sel = sign ++ ds ++ rest
    /\ (sign = [] \/ sign = [plus_sign] \/ sign = [minus_sign])
    /\ ds <> [] /\ forallb is_digit ds = true
    /\ (rest = [] \/ exists label, rest = space :: label)
    /\ min_int <= parseModeFromSelection sel <= max_int.
Proof.
  unfold parseModeFromSelection. intros Hmode.
  destruct (strings_SplitN2_cases sel space) as [[_ E]|(w & r & -> & _ & E)];
    rewrite E in *.
  - destruct (strconv_Atoi sel) as [m|] eqn:Hatoi; [|congruence].
    destruct (strconv_Atoi_syntax sel m Hatoi) as (sign & ds & -> & Hsign & Hne & Hds & Hm).
    exists sign, ds, []. rewrite app_nil_r. auto 10.
  - destruct (strconv_Atoi w) as [m|] eqn:Hatoi; [|congruence].
    destruct (strconv_Atoi_syntax w m Hatoi) as (sign & ds & -> & Hsign & Hne & Hds & Hm).
    exists sign, ds, (space :: r). rewrite <- app_assoc. eauto 10.
Qed.

Lemma parseModeFromSelection_zero_unless_number_witness :
  parseModeFromSelection (str "13 - Argon2 [default with ENABLE_SECURITY]") <> 0
  /\ exists sign ds rest,
       str "13 - Argon2 [default with ENABLE_SECURITY]" = sign ++ ds ++ rest
       /\ (sign = [] \/ sign = [plus_sign] \/ sign = [minus_sign])
       /\ ds <> [] /\ forallb is_digit ds = true
       /\ (rest = [] \/ exists label, rest = space :: label)
       /\ min_int
          <= parseModeFromSelection (str "13 - Argon2 [default with ENABLE_SECURITY]")
          <= max_int.
Proof.
  split; [vm_compute; discriminate|].
  apply (parseModeFromSelection_zero_unless_number
           (str "13 - Argon2 [default with ENABLE_SECURITY]")).
  vm_compute. discriminate.
Defined.

Example parseModeFromSelection_edges :
  map parseModeFromSelection
    [str ""; str " 3"; str "MD5"; str "3x - MD5"; str "+3"; str "-3 - MD5";
     str "9223372036854775807"; str "9223372036854775808"; str "-"; str "007 x"]
  = [0; 0; 0; 0; 3; -3; 9223372036854775807; 0; 0; 7].
Proof. vm_compute. reflexivity. Qed.

Section Options.
Context `{Primitives}.

Lemma eqcryptHash_supported (username password : list byte) (mode : Z)
  (rng : entropy) (m : Z) :
  1 <= mode <= 14 ->
  fst (eqcryptHash username password mode rng) <> Err (UnsupportedMode m).
Proof.
  intros Hmode. destruct (Z.le_gt_cases mode 12) as [Hlegacy|Hkdf].
  - rewrite eqcryptHash_legacy by lia. discriminate.
  - assert (mode = 13 \/ mode = 14) as [-> | ->] by lia.
    + apply hashArgon2_supported.
    + apply hashSCrypt_supported.
Qed.

End Options.

(** X11.  Every option of the list is read as its position, counted from
    1: the fourteen options give the modes 1 to 14 in order (the last, which
    the window selects at start, is mode 14), and for none of them [generate]
    returns the unsupported-mode error. *)
Theorem modeOptions_modes (P : Primitives) (i : nat) (sel : list byte) :
  nth_error modeOptions i = Some sel ->
  parseModeFromSelection sel = Z.of_nat i + 1
  /\ 1 <= parseModeFromSelection sel <= 14
  /\ (forall (username password : list byte) (rng : entropy) (m : Z),
         fst (@eqcryptHash P username password (parseModeFromSelection sel) rng)
         <> Err (UnsupportedMode m)).
Proof.
  intros Hsel.
  assert (parseModeFromSelection sel = Z.of_nat i + 1 /\ (i < 14)%nat) as [E Hi].
  { do 14 (destruct i as [|i];
           [injection Hsel as <-; split; [vm_compute; reflexivity|lia]|]).
    destruct i; discriminate Hsel. }
  split; [exact E|]. split; [lia|].
  intros username password rng m. apply eqcryptHash_supported. lia.
Qed.

Lemma modeOptions_modes_witness :
  nth_error modeOptions 13 = Some (str "14 - SCrypt")
  /\ parseModeFromSelection (str "14 - SCrypt") = 14.
Proof.
  split; [reflexivity|].
  destruct (modeOptions_modes test_primitives 13 (str "14 - SCrypt")) as (E & _);
    [reflexivity|exact E].
Defined.

(* ===================================================================== *)
(** ** The two buttons *)
(* ===================================================================== *)

Lemma bytes_eqb_nil (s : list byte) : bytes_eqb s [] = true <-> s = [].
Proof. apply bytes_eqb_eq. Qed.

Lemma bytes_eqb_nil_false (s : list byte) : s <> [] -> bytes_eqb s [] = false.
Proof.
  intros Hne. destruct (bytes_eqb s []) eqn:E; [|reflexivity].
  apply bytes_eqb_eq in E. contradiction.
Qed.

Section Buttons.
Context `{Primitives} `{Host}.

(** The button runs the dispatcher once its three checks have passed. *)
Lemma hashButton_tapped_run
  (selected username password : list byte) (w : window) (rng : entropy) :
  parseModeFromSelection selected <> 0 ->
  password <> [] ->
  (modeNeedsUsername_at (parseModeFromSelection selected) = true -> username <> []) ->
  hashButton_tapped selected username password w rng
  = match eqcryptHash username password (parseModeFromSelection selected) rng with
    | (Err err, rng') =>
        (outputEntry_SetText []
           (statusLabel_SetText (str "Error: " ++ Error_text err) w), rng')
    | (Ok hash, rng') =>
        (statusLabel_SetText
           (str "Mode " ++ Sprintf_d (parseModeFromSelection selected)
              ++ str " hash generated (" ++ Sprintf_d (len hash) ++ str " chars)")
           (outputEntry_SetText hash w), rng')
    end.
Proof.
  intros Hmode Hpassword Husername. unfold hashButton_tapped.
  destruct (Z.eqb_spec (parseModeFromSelection selected) 0) as [E|_];
    [contradiction|].
  rewrite (bytes_eqb_nil_false password) by exact Hpassword.
  destruct (modeNeedsUsername_at (parseModeFromSelection selected)); cbn [andb];
    [|reflexivity].
  rewrite (bytes_eqb_nil_false username) by (apply Husername; reflexivity).
  reflexivity.
Qed.

(** The dispatcher does not look at the username in the modes whose table
    entry is not true, supported or not. *)
Lemma eqcryptHash_username_free (username1 username2 password : list byte) (mode : Z) :
  modeNeedsUsername_at mode = false ->
  eqcryptHash username1 password mode = eqcryptHash username2 password mode.
Proof.
  intros Hfree. destruct (Z.lt_ge_cases mode 1) as [Hlow|Hlow].
  { rewrite !eqcryptHash_default by lia. reflexivity. }
  destruct (Z.lt_ge_cases 14 mode) as [Hhigh|Hhigh].
  { rewrite !eqcryptHash_default by lia. reflexivity. }
  assert (mode = 1 \/ mode = 2 \/ mode = 3 \/ mode = 4 \/ mode = 5 \/ mode = 6
          \/ mode = 7 \/ mode = 8 \/ mode = 9 \/ mode = 10 \/ mode = 11
          \/ mode = 12 \/ mode = 13 \/ mode = 14) as Hcases by lia.
  repeat (destruct Hcases as [->|Hcases];
          [first [reflexivity | discriminate Hfree]|]).
  subst mode. reflexivity.
Qed.

End Buttons.

(** X12.  The "Generate Hash" button hashes nothing, draws no random bytes
    and leaves the output entry as it is when no mode is selected, when the
    password is empty, or when the username is empty in a mode that needs
    one; it only sets the status, to the message of the first of these three
    checks that fails. *)
Theorem hashButton_checks_first (P : Primitives) (Hst : Host)
  (selected username password : list byte) (w : window) (rng : entropy) :
  let mode := parseModeFromSelection selected in
  mode = 0 \/ password = [] \/ (modeNeedsUsername_at mode = true /\ username = []) ->
  exists message,
    @hashButton_tapped P Hst selected username password w rng
    = (statusLabel_SetText message w, rng)
    /\ (mode = 0 -> message = str "Please select an encryption mode")
    /\ (mode <> 0 -> password = [] -> message = str "Password is required")
    /\ (mode <> 0 -> password <> [] ->
        message = str "Username is required for this mode").
Proof.
  intros mode Hcheck. unfold hashButton_tapped. fold mode.
  destruct (Z.eqb_spec mode 0) as [E0|Hmode].
  { eexists. split; [reflexivity|]. repeat split; congruence. }
  destruct (bytes_eqb password []) eqn:Ep.
  { apply bytes_eqb_nil in Ep. eexists. split; [reflexivity|].
    repeat split; congruence. }
  assert (password <> []) as Hpassword.
  { intros ->. discriminate Ep. }
  destruct Hcheck as [?|[?|[Hneeds ->]]]; [contradiction|contradiction|].
  rewrite Hneeds. cbn [andb bytes_eqb].
  eexists. split; [reflexivity|]. repeat split; congruence.
Qed.

Lemma hashButton_checks_first_witness :
  exists message,
    @hashButton_tapped test_primitives test_host (str "2 - MD5 (password:username)")
      [] (str "hunter2") {| statusLabel := []; outputEntry := str "old";
                            usernameNote := []; resultLabel := [] |} []
    = ({| statusLabel := message; outputEntry := str "old";
          usernameNote := []; resultLabel := [] |}, [])
    /\ message = str "Username is required for this mode".
Proof.
  destruct (hashButton_checks_first test_primitives test_host
              (str "2 - MD5 (password:username)") [] (str "hunter2")
              {| statusLabel := []; outputEntry := str "old";
                 usernameNote := []; resultLabel := [] |} [])
    as (message & Hrun & _ & _ & Hmessage).
  - right. right. split; reflexivity.
  - exists message. split; [exact Hrun|].
    apply Hmessage; [vm_compute|]; discriminate.
Defined.

(** X13.  The note under the username entry and the button agree.  When the
    note for a selection says that the username is not used, what the button
    does with that selection does not depend on the username entry; when it
    says that the username is required, the button, given a password,
    refuses an empty username. *)
Theorem usernameNote_agrees_with_button (P : Primitives) (Hst : Host)
  (selected password : list byte) (w0 w : window) (rng : entropy) :
  (usernameNote (modeSelect_OnChanged selected w0)
   = str "Username is not used for this mode" ->
   forall username1 username2 : list byte,
     @hashButton_tapped P Hst selected username1 password w rng
     = @hashButton_tapped P Hst selected username2 password w rng)
  /\ (usernameNote (modeSelect_OnChanged selected w0)
      = str "Username is required for this mode" ->
      password <> [] ->
      @hashButton_tapped P Hst selected [] password w rng
      = (statusLabel_SetText (str "Username is required for this mode") w, rng)).
Proof.
  unfold modeSelect_OnChanged.
  destruct (modeNeedsUsername_at (parseModeFromSelection selected)) eqn:Hneeds;
    cbn [usernameNote usernameNote_SetText]; split.
  - intros E. discriminate E.
  - intros _ Hpassword. unfold hashButton_tapped.
    destruct (Z.eqb_spec (parseModeFromSelection selected) 0) as [E0|_].
    { rewrite E0 in Hneeds. discriminate Hneeds. }
    rewrite (bytes_eqb_nil_false password) by exact Hpassword.
    rewrite Hneeds. reflexivity.
  - intros _ username1 username2. unfold hashButton_tapped.
    rewrite Hneeds. cbn [andb].
    rewrite (eqcryptHash_username_free username1 username2) by exact Hneeds.
    reflexivity.
  - intros E. discriminate E.
Qed.

(* ===================================================================== *)
(** ** From the Generate tab to the Verify tab *)
(* ===================================================================== *)

Lemma forallb_graphic_from (alphabet s : list byte) :
  forallb graphic alphabet = true ->
  (forall c, In c s -> In c alphabet) ->
  forallb graphic s = true.
Proof.
  intros Halphabet Hs. rewrite forallb_forall in *.
  intros c HIn. apply Halphabet, Hs, HIn.
Qed.

Lemma encode64Bytes_graphic (x : list byte) : forallb graphic (encode64Bytes x) = true.
Proof.
  apply (forallb_graphic_from itoa64); [reflexivity|].
  intros c. apply encode64Bytes_alphabet.
Qed.

Lemma RawStdEncoding_graphic (x : list byte) :
  forallb graphic (RawStdEncoding_EncodeToString x) = true.
Proof.
  apply (forallb_graphic_from encodeStd); [reflexivity|].
  intros c. apply RawStdEncoding_alphabet.
Qed.

Lemma Sprintf_x_graphic (digest : list byte) : forallb graphic (Sprintf_x digest) = true.
Proof.
  apply (forallb_graphic_from hexdigits); [reflexivity|].
  intros c. apply Sprintf_x_hexdigits.
Qed.

Lemma graphic_not_space (c : byte) : graphic c = true -> is_ascii_space c = false.
Proof.
  intros Hc. unfold graphic in Hc. apply andb_true_iff in Hc as [Hlo _].
  apply Z.leb_le in Hlo.
  assert (forall k : byte, uint k < 33 -> Byte.eqb c k = false) as Hne.
  { intros k Hk. destruct (Byte.eqb c k) eqn:E; [|reflexivity].
    apply Byte.byte_dec_bl in E. subst k. lia. }
  unfold is_ascii_space.
  rewrite !Hne by (vm_compute; reflexivity). reflexivity.
Qed.

Lemma trim_left_graphic (s : list byte) : forallb graphic s = true -> trim_left s = s.
Proof.
  destruct s as [|c s]; [reflexivity|]. cbn [forallb trim_left].
  intros Hs. apply andb_true_iff in Hs as [Hc _].
  rewrite (graphic_not_space c Hc). reflexivity.
Qed.

Lemma test_host_keeps_graphic : @TrimSpace_keeps_graphic test_host.
Proof.
  intros s Hs. cbn [strings_TrimSpace test_host].
  rewrite (trim_left_graphic s Hs).
  rewrite trim_left_graphic; [apply rev_involutive|].
  rewrite forallb_forall in *. intros c HIn. apply Hs, in_rev, HIn.
Qed.

Lemma legacy_table_hexdigits (P : Primitives) (mode : Z) (username password : list byte)
  (c : byte) :
  In c (@legacy_table P mode username password) -> In c hexdigits.
Proof.
  unfold legacy_table.
  repeat match goal with
         | |- context [match ?x with _ => _ end] => destruct x
         end; apply Sprintf_x_hexdigits.
Qed.

Lemma legacy_table_length (P : Primitives) (mode : Z) (username password : list byte) :
  @digest_sizes P ->
  length (@legacy_table P mode username password)
  = (if mode <=? 4 then 32%nat else if mode <=? 8 then 40%nat else 128%nat).
Proof.
  intros (Hmd5 & Hsha1 & Hsha512).
  assert (forall s, length (Sprintf_x (@table_digest P mode s))
                    = (if mode <=? 4 then 32%nat else if mode <=? 8 then 40%nat
                       else 128%nat)) as Hlen.
  { intros s. rewrite Sprintf_x_length. unfold table_digest.
    destruct (mode <=? 4); [rewrite Hmd5; reflexivity|].
    destruct (mode <=? 8); [rewrite Hsha1|rewrite Hsha512]; reflexivity. }
  unfold legacy_table.
  repeat match goal with
         | |- context [match ?x with _ => _ end] => destruct x
         end; apply Hlen.
Qed.

Lemma hexdigit_not_dollar (c : byte) : In c hexdigits -> Byte.eqb c dollar = false.
Proof.
  intros HIn. destruct (Byte.eqb c dollar) eqn:E; [|reflexivity].
  apply Byte.byte_dec_bl in E. subst c. exfalso.
  apply (in_map Byte.to_nat) in HIn. vm_compute in HIn.
  repeat (destruct HIn as [HIn|HIn]; [discriminate HIn|]). exact HIn.
Qed.

(** X14.  A hash made by the Generate button in mode 14 and carried to the
    Verify tab with the same password passes: when the random source
    delivers, [scrypt.Key] keeps to its documentation and
    [strings.TrimSpace] leaves a text without white space alone, the output
    entry holds 101 characters, and the Verify button on that text and the
    same non-empty password returns, shows the hash length 101 and sets the
    result to the PASS message. *)
Theorem generate_then_verify_scrypt (P : Primitives) (Hst : Host)
  (username password : list byte) (w w' : window) (rng : entropy) :
  @scrypt_Key_interactive P ->
  @TrimSpace_keeps_graphic Hst ->
  (32 <= length rng)%nat ->
  password <> [] ->
  let generated :=
    fst (@hashButton_tapped P Hst (str "14 - SCrypt") username password w rng) in
  length (outputEntry generated) = 101%nat
  /\ @verifyButton_tapped P Hst (outputEntry generated) password w'
     = Returns
         (resultLabel_SetText (str "PASS - Password matches this SCrypt hash")
            (statusLabel_SetText (str "Hash length: 101 chars") w')).
Proof.
  intros Hkdf Htrim Hrng Hpassword generated. unfold generated. clear generated.
  rewrite hashButton_tapped_run;
    [|vm_compute; discriminate|exact Hpassword|vm_compute; discriminate].
  change (parseModeFromSelection (str "14 - SCrypt")) with 14.
  change (@eqcryptHash P username password 14 rng) with (@hashSCrypt P password rng).
  destruct (Hkdf password (encode64Bytes (firstn 32 rng))) as (dk & Hdk & Hlen).
  pose proof (@hashSCrypt_run P password rng Hrng) as Hrun. rewrite Hdk in Hrun.
  rewrite Hrun.
  cbn [fst outputEntry statusLabel_SetText outputEntry_SetText].
  set (h := str "$7$" ++ scrypt_params ++ encode64Bytes (firstn 32 rng)
            ++ str "$" ++ encode64Bytes dk) in *.
  destruct (@verifySCrypt_hashSCrypt P _ _ _ _ Hrun) as [Hverify _].
  assert (length h = 101%nat) as Hh.
  { unfold h. rewrite !length_app, !encode64Bytes_length, Hlen, length_take.
    replace (32 `min` length rng)%nat with 32%nat by lia. reflexivity. }
  split; [exact Hh|].
  unfold verifyButton_tapped. rewrite Htrim.
  2:{ unfold h. rewrite !forallb_app, !encode64Bytes_graphic. reflexivity. }
  rewrite (bytes_eqb_nil_false h) by (intros E; rewrite E in Hh; discriminate Hh).
  rewrite (bytes_eqb_nil_false password) by exact Hpassword. cbn [orb].
  assert (strings_HasPrefix h (str "$7$") = true) as -> by reflexivity.
  rewrite Hverify. unfold len. rewrite Hh. reflexivity.
Qed.

Lemma generate_then_verify_scrypt_witness :
  @verifyButton_tapped test_primitives test_host
    (outputEntry
       (fst (@hashButton_tapped test_primitives test_host (str "14 - SCrypt")
               (str "tester") (str "correcthorse")
               {| statusLabel := []; outputEntry := [];
                  usernameNote := []; resultLabel := [] |}
               (str "0123456789abcdefghijklmnopqrstuv"))))
    (str "correcthorse")
    {| statusLabel := []; outputEntry := []; usernameNote := []; resultLabel := [] |}
  = Returns
      {| statusLabel := str "Hash length: 101 chars"; outputEntry := [];
         usernameNote := [];
         resultLabel := str "PASS - Password matches this SCrypt hash" |}.
Proof.
  destruct (generate_then_verify_scrypt test_primitives test_host
              (str "tester") (str "correcthorse")
              {| statusLabel := []; outputEntry := [];
                 usernameNote := []; resultLabel := [] |}
              {| statusLabel := []; outputEntry := [];
                 usernameNote := []; resultLabel := [] |}
              (str "0123456789abcdefghijklmnopqrstuv")) as [_ Hverify].
  - exact test_primitives_interactive.
  - exact test_host_keeps_graphic.
  - vm_compute. reflexivity.
  - discriminate.
  - exact Hverify.
Defined.

(** X15.  A hash made by the Generate button in mode 13 and carried to the
    Verify tab is not verified: when the random source delivers and
    [strings.TrimSpace] leaves a text without white space alone, the Verify
    button, for every non-empty password, right or wrong, answers that
    Argon2 verification is not supported. *)
Theorem generate_then_verify_argon2 (P : Primitives) (Hst : Host)
  (username password candidate : list byte) (w w' : window) (rng : entropy) :
  @TrimSpace_keeps_graphic Hst ->
  (16 <= length rng)%nat ->
  password <> [] ->
  candidate <> [] ->
  let generated :=
    fst (@hashButton_tapped P Hst (str "13 - Argon2 [default with ENABLE_SECURITY]")
           username password w rng) in
  @verifyButton_tapped P Hst (outputEntry generated) candidate w'
  = Returns
      (resultLabel_SetText (str "Argon2 verification not yet supported in verify tab")
         (statusLabel_SetText
            (str "Hash length: " ++ Sprintf_d (len (outputEntry generated))
               ++ str " chars") w')).
Proof.
  intros Htrim Hrng Hpassword Hcandidate generated. unfold generated. clear generated.
  rewrite hashButton_tapped_run;
    [|vm_compute; discriminate|exact Hpassword|vm_compute; discriminate].
  change (parseModeFromSelection (str "13 - Argon2 [default with ENABLE_SECURITY]"))
    with 13.
  change (@eqcryptHash P username password 13 rng) with (@hashArgon2 P password rng).
  rewrite hashArgon2_run by exact Hrng.
  cbn [fst outputEntry statusLabel_SetText outputEntry_SetText].
  set (tail := RawStdEncoding_EncodeToString (firstn 16 rng) ++ str "$"
               ++ RawStdEncoding_EncodeToString
                    (@argon2_IDKey P password (firstn 16 rng) 2 65536 1 32)).
  unfold verifyButton_tapped. rewrite Htrim.
  2:{ unfold tail. rewrite !forallb_app, !RawStdEncoding_graphic. reflexivity. }
  rewrite (bytes_eqb_nil_false candidate) by exact Hcandidate.
  reflexivity.
Qed.

Lemma generate_then_verify_argon2_witness :
  @verifyButton_tapped test_primitives test_host
    (str "$argon2id$v=19$m=65536,t=2,p=1$MDEyMzQ1Njc4OWFiY2RlZg$aHVudGVyMjAxMjM0NTY3ODlhYmNkZWYAAAAAAAAAAAA")
    (str "hunter2")
    {| statusLabel := []; outputEntry := []; usernameNote := []; resultLabel := [] |}
  = Returns
      {| statusLabel := str "Hash length: 97 chars"; outputEntry := [];
         usernameNote := [];
         resultLabel := str "Argon2 verification not yet supported in verify tab" |}.
Proof.
  apply (generate_then_verify_argon2 test_primitives test_host
           (str "tester") (str "hunter2") (str "hunter2")
           {| statusLabel := []; outputEntry := [];
              usernameNote := []; resultLabel := [] |}
           {| statusLabel := []; outputEntry := [];
              usernameNote := []; resultLabel := [] |}
           (str "0123456789abcdef")).
  - exact test_host_keeps_graphic.
  - vm_compute. reflexivity.
  - discriminate.
  - discriminate.
Defined.

(** X16.  A hash made by the Generate button with one of the first twelve
    options (whenever the button makes one: the password is not empty, and
    neither is the username when the mode needs it) and carried to the
    Verify tab is neither verified nor refused: with digests of 16, 20 and 64
    bytes and a [strings.TrimSpace] that leaves a text without white space
    alone, the Verify button takes it for neither an scrypt nor an Argon2
    hash and answers with its length, 32, 40 or 128 characters, whatever the
    password entered. *)
Theorem generate_then_verify_legacy (P : Primitives) (Hst : Host)
  (i : nat) (selected username password candidate : list byte)
  (w w' : window) (rng : entropy) :
  @digest_sizes P ->
  @TrimSpace_keeps_graphic Hst ->
  nth_error modeOptions i = Some selected ->
  (i < 12)%nat ->
  (modeNeedsUsername_at (parseModeFromSelection selected) = true -> username <> []) ->
  password <> [] -> candidate <> [] ->
  let generated :=
    fst (@hashButton_tapped P Hst selected username password w rng) in
  let n := if (i <? 4)%nat then 32 else if (i <? 8)%nat then 40 else 128 in
  len (outputEntry generated) = n
  /\ @verifyButton_tapped P Hst (outputEntry generated) candidate w'
     = Returns
         (resultLabel_SetText
            (str "Hash is " ++ Sprintf_d n
               ++ str " chars (MD5=32, SHA1=40, SHA512=128) - use Generate tab to compare")
            (statusLabel_SetText
               (str "Hash length: " ++ Sprintf_d n ++ str " chars") w')).
Proof.
  intros Hsizes Htrim Hsel Hi Husername Hpassword Hcandidate generated n.
  unfold generated. clear generated.
  assert (parseModeFromSelection selected = Z.of_nat i + 1) as Hmode.
  { do 12 (destruct i as [|i]; [injection Hsel as <-; vm_compute; reflexivity|]).
    lia. }
  rewrite hashButton_tapped_run; [|lia|exact Hpassword|exact Husername].
  rewrite Hmode, eqcryptHash_legacy by lia. unfold ret.
  cbn [fst outputEntry statusLabel_SetText outputEntry_SetText].
  set (h := @legacy_table P (Z.of_nat i + 1) username password).
  assert (len h = n) as Hlen.
  { unfold len, h, n. rewrite legacy_table_length by exact Hsizes.
    destruct (Z.leb_spec (Z.of_nat i + 1) 4), (Nat.ltb_spec i 4); try lia.
    destruct (Z.leb_spec (Z.of_nat i + 1) 8), (Nat.ltb_spec i 8); lia. }
  split; [exact Hlen|].
  assert (forallb graphic h = true) as Hgraphic.
  { apply (forallb_graphic_from hexdigits); [reflexivity|].
    intros c. apply legacy_table_hexdigits. }
  assert (exists c t, h = c :: t /\ Byte.eqb c dollar = false) as (c & t & Hh & Hc).
  { destruct h as [|c t] eqn:E.
    - exfalso. unfold len in Hlen. cbn [length] in Hlen. unfold n in Hlen.
      destruct (i <? 4)%nat; [discriminate Hlen|].
      destruct (i <? 8)%nat; discriminate Hlen.
    - exists c, t. split; [reflexivity|]. apply hexdigit_not_dollar.
      apply (legacy_table_hexdigits P (Z.of_nat i + 1) username password).
      fold h. rewrite E. left. reflexivity. }
  unfold verifyButton_tapped. rewrite (Htrim h Hgraphic), Hlen.
  rewrite (bytes_eqb_nil_false h) by (rewrite Hh; discriminate).
  rewrite (bytes_eqb_nil_false candidate) by exact Hcandidate. cbn [orb].
  rewrite Hh.
  assert (strings_HasPrefix (c :: t) (str "$7$") = false) as ->
    by (change (str "$7$") with (dollar :: str "7$"); cbn [strings_HasPrefix];
        rewrite Hc; reflexivity).
  assert (strings_HasPrefix (c :: t) (str "$argon2") = false) as ->
    by (change (str "$argon2") with (dollar :: str "argon2"); cbn [strings_HasPrefix];
        rewrite Hc; reflexivity).
  reflexivity.
Qed.

Lemma generate_then_verify_legacy_witness :
  @verifyButton_tapped test_primitives test_host
    (outputEntry
       (fst (@hashButton_tapped test_primitives test_host
               (str "5 - SHA1") [] (str "hunter2")
               {| statusLabel := []; outputEntry := [];
                  usernameNote := []; resultLabel := [] |} [])))
    (str "hunter2")
    {| statusLabel := []; outputEntry := []; usernameNote := []; resultLabel := [] |}
  = Returns
      {| statusLabel := str "Hash length: 40 chars"; outputEntry := [];
         usernameNote := [];
         resultLabel :=
           str "Hash is 40 chars (MD5=32, SHA1=40, SHA512=128) - use Generate tab to compare" |}.
Proof.
  destruct (generate_then_verify_legacy test_primitives test_host 4
              (str "5 - SHA1") [] (str "hunter2")
              (str "hunter2")
              {| statusLabel := []; outputEntry := [];
                 usernameNote := []; resultLabel := [] |}
              {| statusLabel := []; outputEntry := [];
                 usernameNote := []; resultLabel := [] |} [])
    as [_ Hverify].
  - exact test_primitives_sizes.
  - exact test_host_keeps_graphic.
  - reflexivity.
  - lia.
  - vm_compute. discriminate.
  - discriminate.
  - discriminate.
  - exact Hverify.
Defined.
